(** * AI Arena: the run coordinator (arena-generator) and the exporter
      (arena-viewer), embedded from the TypeScript sources.

    JavaScript numbers are IEEE 754 binary64 values: they are modelled by
    Rocq's primitive floats, whose operations are the same binary64
    operations.  Strings are modelled by their UTF-8 bytes, the encoding in
    which the exporter's Blob is written; the three characters the exporter
    rewrites (tab, carriage return, line feed) are single bytes that occur
    in no multi-byte sequence. *)

From Stdlib Require Import Floats ZArith NArith QArith Qround Bool Arith Lia.
From Stdlib Require Import Ascii String List Permutation Lqa.
Import ListNotations.

Local Open Scope string_scope.
Local Open Scope list_scope.
Local Open Scope nat_scope.

(** * Data model *)

(** [type TLLM] of the generator (part_001, lines 11-17). *)
Module TLLM.
Record t := mk {
  name : string;
  parameters : string;
  size : float;
  family : string;
  selected : bool
}.
End TLLM.

(** One entry of the backend's [list()] answer, with the fields
    [firstUpdated] reads. *)
Module ModelResponse.
Record t := mk {
  name : string;
  size : float;
  details_parameter_size : string;
  details_family : string
}.
End ModelResponse.

(** The backend's [ChatResponse], with the fields the generator reads. *)
Module ChatResponse.
Record t := mk {
  created_at : string;
  message_content : string;
  total_duration : float;
  load_duration : float;
  prompt_eval_count : float;
  prompt_eval_duration : float;
  eval_count : float;
  eval_duration : float
}.
End ChatResponse.

(** A row of the [responses] table: the object handed to
    [responses.add] (part_001, lines 125-141), which is [type TResponse] of
    the viewer (arena-viewer.ts, lines 11-28).  The auto-increment key [id]
    is assigned by the store and read by nothing in the sources; it is left
    out. *)
Module TResponse.
Record t := mk {
  created_at : string;
  eval_count : float;
  eval_duration : float;
  model_family : string;
  load_duration : float;
  message : string;
  model_name : string;
  parameters : string;
  prompt_eval_count : float;
  prompt_eval_duration : float;
  query : string;
  size : float;
  started : string;
  total_duration : float;
  group_id : string
}.
End TResponse.

(** An element of [_results]: [{...response, ...llm, query, started}]
    (part_001, lines 118-123).  The spread of [llm] also copies its
    [selected] flag as it stands at that moment; nothing reads it. *)
Module MemResult.
Record t := mk {
  response : ChatResponse.t;
  name : string;
  parameters : string;
  size : float;
  family : string;
  query : string;
  started : string
}.
End MemResult.

(** * The JavaScript runtime: numbers to strings

    [Number::toString] and [Number.prototype.toFixed] as ECMAScript
    defines them, computed on the exact rational value of the binary64
    number. *)

Module JS.

Local Open Scope string_scope.

Definition pow (b n : Z) : Q :=
  if (0 <=? n)%Z then inject_Z (b ^ n) else 1 # Z.to_pos (b ^ (- n)).

Definition Qltb (x y : Q) : bool := negb (Qle_bool y x).

(** The value of the positive finite binary64 number of mantissa [m] and
    exponent [e]. *)
Definition value (m : positive) (e : Z) : Q :=
  (inject_Z (Zpos m) * pow 2 e)%Q.

(** The value of a finite number. *)
Definition exact (x : float) : option Q :=
  match Prim2SF x with
  | S754_zero _ => Some 0%Q
  | S754_finite sign m e =>
      Some (if sign then Qopp (value m e) else value m e)
  | _ => None
  end.

Definition digit (d : N) : ascii := ascii_of_N (48 + d).

Fixpoint digits_from (fuel : nat) (n : N) : string :=
  match fuel with
  | O => ""
  | S fuel' =>
      if (n <? 10)%N then String (digit n) ""
      else digits_from fuel' (n / 10) ++ String (digit (n mod 10)) ""
  end.

(** The decimal digits of [n], most significant first. *)
Definition digits (n : N) : string :=
  digits_from (S (N.to_nat (N.log2 n))) n.

Fixpoint zeros (n : nat) : string :=
  match n with
  | O => ""
  | S n' => String "0" (zeros n')
  end.

(** Whether the real [v] rounds to the binary64 number [m * 2^e]
    (round to nearest, ties to even). *)
Definition rounds_to (m : positive) (e : Z) (v : Q) : bool :=
  let below :=
    if andb (Pos.eqb m 4503599627370496) (-1074 <? e)%Z
    then (inject_Z (4 * Zpos m - 1) * pow 2 (e - 2))%Q
    else (inject_Z (2 * Zpos m - 1) * pow 2 (e - 1))%Q in
  let above := (inject_Z (2 * Zpos m + 1) * pow 2 (e - 1))%Q in
  if Z.even (Zpos m)
  then andb (Qle_bool below v) (Qle_bool v above)
  else andb (Qltb below v) (Qltb v above).

(** From a lower estimate, the [n] with [10^(n-1) <= x < 10^n]. *)
Fixpoint magnitude (fuel : nat) (n : Z) (x : Q) : Z :=
  match fuel with
  | O => n
  | S fuel' => if Qltb x (pow 10 n) then n else magnitude fuel' (n + 1)%Z x
  end.

(** Number::toString, step 5: the integers [s] and [n] such that
    [s * 10^(n-k)] rounds to the number, for [k] the number of digits of
    [s], as small as possible; of several such [s] the closest, and the
    even one on a tie. *)
Fixpoint shortest_from (fuel : nat) (k : Z) (m : positive) (e n : Z)
  : Z * Z :=
  let x := value m e in
  let scale := pow 10 (n - k) in
  let s := Qfloor (x / scale) in
  let lo := (inject_Z s * scale)%Q in
  let hi := (inject_Z (s + 1) * scale)%Q in
  let up :=
    if (s + 1 =? 10 ^ k)%Z then (10 ^ (k - 1), n + 1)%Z
    else ((s + 1)%Z, n) in
  match fuel with
  | O => (s, n)
  | S fuel' =>
      match rounds_to m e lo, rounds_to m e hi with
      | true, false => (s, n)
      | false, true => up
      | true, true =>
          if Qltb (x - lo) (hi - x) then (s, n)
          else if Qltb (hi - x) (x - lo) then up
          else if Z.even s then (s, n) else up
      | false, false => shortest_from fuel' (k + 1)%Z m e n
      end
  end.

Definition shortest (m : positive) (e : Z) : Z * Z :=
  let estimate := ((Z.log2 (Zpos m) + e) * 30103 / 100000 - 1)%Z in
  shortest_from 17 1 m e (magnitude 5 estimate (value m e)).

(** Number::toString of a positive finite number, steps 5 to 10. *)
Definition positive_toString (m : positive) (e : Z) : string :=
  let (s, n) := shortest m e in
  let ds := digits (Z.to_N s) in
  let k := Z.of_nat (String.length ds) in
  if andb (k <=? n)%Z (n <=? 21)%Z then
    ds ++ zeros (Z.to_nat (n - k))
  else if andb (0 <? n)%Z (n <=? 21)%Z then
    substring 0 (Z.to_nat n) ds ++ "."
      ++ substring (Z.to_nat n) (Z.to_nat (k - n)) ds
  else if andb (-6 <? n)%Z (n <=? 0)%Z then
    "0." ++ zeros (Z.to_nat (- n)) ++ ds
  else
    let ex :=
      (if (0 <=? n - 1)%Z then "+" else "-")
        ++ digits (Z.to_N (Z.abs (n - 1))) in
    if (k =? 1)%Z then ds ++ "e" ++ ex
    else substring 0 1 ds ++ "." ++ substring 1 (Z.to_nat (k - 1)) ds
           ++ "e" ++ ex.

Definition Number_toString (x : float) : string :=
  match Prim2SF x with
  | S754_nan => "NaN"
  | S754_zero _ => "0"
  | S754_infinity false => "Infinity"
  | S754_infinity true => "-Infinity"
  | S754_finite sign m e =>
      (if sign then "-" else "") ++ positive_toString m e
  end.

(** Number.prototype.toFixed, steps 8 and 9: the numeral of [n / 10^f]. *)
Definition fixed (f : nat) (n : N) : string :=
  let m := digits n in
  match f with
  | O => m
  | _ =>
      let k := String.length m in
      let m := if (k <=? f)%nat then zeros (f + 1 - k) ++ m else m in
      let k := String.length m in
      substring 0 (k - f) m ++ "." ++ substring (k - f) f m
  end.

(** The integer [n] for which [n / 10^f - x] is closest to zero, the
    larger one of two. *)
Definition nearest (f : nat) (x : Q) : N :=
  Z.to_N (Qfloor (x * pow 10 (Z.of_nat f) + (1 # 2))%Q).

Definition toFixed (fractionDigits : nat) (x : float) : string :=
  match Prim2SF x with
  | S754_nan | S754_infinity _ => Number_toString x
  | S754_zero _ => fixed fractionDigits 0
  | S754_finite sign m e =>
      (if sign then "-" else "")
        ++ (if Qle_bool (pow 10 21) (value m e) then positive_toString m e
            else fixed fractionDigits (nearest fractionDigits (value m e)))
  end.

(** Reading a decimal numeral (an optional sign, digits, and optionally a
    point and more digits) back as a rational. *)
Definition digit_value (c : ascii) : option N :=
  let k := N_of_ascii c in
  if andb (48 <=? k)%N (k <=? 57)%N then Some (k - 48)%N else None.

Fixpoint read_digits (acc : N) (s : string) : option N :=
  match s with
  | EmptyString => Some acc
  | String c s' =>
      match digit_value c with
      | Some d => read_digits (10 * acc + d) s'
      | None => None
      end
  end.

Fixpoint before_point (s : string) : string :=
  match s with
  | EmptyString => EmptyString
  | String c s' =>
      if Ascii.eqb c "." then EmptyString else String c (before_point s')
  end.

Fixpoint after_point (s : string) : option string :=
  match s with
  | EmptyString => None
  | String c s' => if Ascii.eqb c "." then Some s' else after_point s'
  end.

Definition unsigned_value (s : string) : option Q :=
  match before_point s with
  | EmptyString => None
  | String _ _ as whole =>
      match read_digits 0 whole, after_point s with
      | Some i, None => Some (inject_Z (Z.of_N i))
      | Some i, Some frac =>
          match read_digits 0 frac with
          | Some f =>
              let scale := (10 ^ N.of_nat (String.length frac))%N in
              Some (Z.of_N (i * scale + f) # Z.to_pos (Z.of_N scale))
          | None => None
          end
      | None, _ => None
      end
  end.

Definition decimal_value (s : string) : option Q :=
  match s with
  | String "-" s' => option_map Qopp (unsigned_value s')
  | _ => unsigned_value s
  end.

End JS.

(** * The run coordinator as an event-driven machine *)

Module Generator.

(** How the promise of [chat(...)] settles: fulfilled with a response,
    fulfilled with a falsy value, or rejected. *)
Inductive ChatOutcome :=
| ChatFulfilled (response : option ChatResponse.t)
| ChatRejected.

(** Where one activation of the [forEach] callback (part_001, lines
    111-152) stands. *)
Inductive Stage :=
| AwaitingChat                          (* suspended at line 112 *)
| AwaitingAdd (record : TResponse.t)    (* suspended at line 125 *)
| ReturnedEarly                         (* left at line 117 *)
| RanToEnd                              (* lines 143-151 were executed *)
| ChatThrew                             (* the await of line 112 threw *)
| AddThrew.                             (* the await of line 125 threw *)

(** One activation of the callback.  [uuid] and [queryInput] are the
    constants of the enclosing [_handleClick] activation, [run] says which
    activation that is, that is, which [counter] variable the callback
    shares. *)
Record Task := mkTask {
  run : nat;
  uuid : string;
  queryInput : string;
  llm : TLLM.t;
  stage : Stage
}.

(** The component, together with the parts of its environment that it
    reads and writes: the [responses] table, the wall clock, the [counter]
    variables of the [_handleClick] activations so far and the suspended
    callbacks.  [clock] is what [new Date().toISOString()] returns; a
    callback runs without interruption, and the two readings it takes
    (lines 122 and 138) are taken to be the same.  [_dexie] is assigned
    before [_ollamaInstance] is, so it is there whenever [_handleClick]
    gets past its first line.  [done_events] counts the "generator:done"
    events dispatched and [list_requests] the [list()] requests issued. *)
Record State := mkState {
  _llm : list TLLM.t;
  _results : list MemResult.t;
  _running : bool;
  _selectedLLM : list TLLM.t;
  _ollamaInstance : bool;
  responses : list TResponse.t;
  clock : string;
  counter : nat -> nat;
  activations : nat;
  tasks : list Task;
  done_events : nat;
  list_requests : nat
}.

(** The component as constructed (field initialisers, part_001 lines
    33-57), over the table as earlier sessions left it. *)
Definition constructed (table : list TResponse.t) (now : string) : State :=
  {| _llm := []; _results := []; _running := false; _selectedLLM := [];
     _ollamaInstance := false; responses := table; clock := now;
     counter := fun _ => 0; activations := 0; tasks := [];
     done_events := 0; list_requests := 0 |}.

(** ** [firstUpdated] (part_001, lines 59-96) *)

Inductive ListOutcome :=
| ListFulfilled (models : list ModelResponse.t)
| ListRejected.

Inductive PromiseResult :=
| Resolved
| RejectedWith (message : string).

Definition toTLLM (model : ModelResponse.t) : TLLM.t :=
  {| TLLM.name := ModelResponse.name model;
     TLLM.parameters := ModelResponse.details_parameter_size model;
     TLLM.size := ModelResponse.size model;
     TLLM.family := ModelResponse.details_family model;
     TLLM.selected := false |}.

Definition firstUpdated (outcome : ListOutcome) (st : State)
  : State * PromiseResult :=
  (* this._ollamaInstance = new Ollama(...); await this._ollamaInstance.list() *)
  let st1 :=
    {| _llm := _llm st; _results := _results st; _running := _running st;
       _selectedLLM := _selectedLLM st; _ollamaInstance := true;
       responses := responses st; clock := clock st; counter := counter st;
       activations := activations st; tasks := tasks st;
       done_events := done_events st;
       list_requests := S (list_requests st) |} in
  match outcome with
  | ListFulfilled models =>
      ({| _llm := map toTLLM models;
          _results := _results st1; _running := _running st1;
          _selectedLLM := _selectedLLM st1;
          _ollamaInstance := _ollamaInstance st1;
          responses := responses st1; clock := clock st1;
          counter := counter st1; activations := activations st1;
          tasks := tasks st1; done_events := done_events st1;
          list_requests := list_requests st1 |}, Resolved)
  | ListRejected =>
      (* catch: console.error(...); return Promise.reject(new Error(...)) *)
      (st1, RejectedWith "Model not available")
  end.

(** ** The checkbox handler (part_001, lines 167-169)

    The handler is created for the indices of [_llm] only; at any other
    index the assignment would throw and change nothing. *)

Definition flip (l : TLLM.t) : TLLM.t :=
  {| TLLM.name := TLLM.name l; TLLM.parameters := TLLM.parameters l;
     TLLM.size := TLLM.size l; TLLM.family := TLLM.family l;
     TLLM.selected := negb (TLLM.selected l) |}.

Fixpoint replace_at {A} (i : nat) (f : A -> A) (l : list A) : list A :=
  match l, i with
  | [], _ => []
  | x :: l', 0 => f x :: l'
  | x :: l', S i' => x :: replace_at i' f l'
  end.

Definition change (idx : nat) (st : State) : State :=
  {| _llm := replace_at idx flip (_llm st);
     _results := _results st; _running := _running st;
     _selectedLLM := _selectedLLM st; _ollamaInstance := _ollamaInstance st;
     responses := responses st; clock := clock st; counter := counter st;
     activations := activations st; tasks := tasks st;
     done_events := done_events st; list_requests := list_requests st |}.

(** ** [_handleClick] (part_001, lines 98-153)

    The synchronous part: every callback of the [forEach] runs up to its
    first [await], that is, issues its chat request and suspends. *)

Definition spawn (r : nat) (u q : string) (l : TLLM.t) : Task :=
  {| run := r; uuid := u; queryInput := q; llm := l; stage := AwaitingChat |}.

Definition _handleClick (randomUUID : string) (input : option string)
    (st : State) : State :=
  if negb (_ollamaInstance st) then st
  else
    let r := activations st in
    let sel := filter TLLM.selected (_llm st) in
    let q := match input with Some v => v | None => "" end in
    {| _llm := _llm st; _results := _results st;
       _running := true;
       _selectedLLM := sel;
       _ollamaInstance := _ollamaInstance st;
       responses := responses st; clock := clock st;
       counter := fun r' => if Nat.eqb r' r then 0 else counter st r';
       activations := S r;
       tasks := tasks st ++ map (spawn r randomUUID q) sel;
       done_events := done_events st; list_requests := list_requests st |}.

(** The callback resumed after [await chat(...)] (lines 112-141): up to
    the next [await], or to its end. *)

Definition set_stage (s : Stage) (t : Task) : Task :=
  {| run := run t; uuid := uuid t; queryInput := queryInput t;
     llm := llm t; stage := s |}.

Definition pushed (t : Task) (response : ChatResponse.t) (now : string)
  : MemResult.t :=
  {| MemResult.response := response;
     MemResult.name := TLLM.name (llm t);
     MemResult.parameters := TLLM.parameters (llm t);
     MemResult.size := TLLM.size (llm t);
     MemResult.family := TLLM.family (llm t);
     MemResult.query := queryInput t;
     MemResult.started := now |}.

Definition added (t : Task) (response : ChatResponse.t) (now : string)
  : TResponse.t :=
  {| TResponse.created_at := ChatResponse.created_at response;
     TResponse.eval_count := ChatResponse.eval_count response;
     TResponse.eval_duration := ChatResponse.eval_duration response;
     TResponse.model_family := TLLM.family (llm t);
     TResponse.load_duration := ChatResponse.load_duration response;
     TResponse.message := ChatResponse.message_content response;
     TResponse.model_name := TLLM.name (llm t);
     TResponse.parameters := TLLM.parameters (llm t);
     TResponse.prompt_eval_count := ChatResponse.prompt_eval_count response;
     TResponse.prompt_eval_duration :=
       ChatResponse.prompt_eval_duration response;
     TResponse.query := queryInput t;
     TResponse.size := TLLM.size (llm t);
     TResponse.started := now;
     TResponse.total_duration := ChatResponse.total_duration response;
     TResponse.group_id := uuid t |}.

Definition after_chat (i : nat) (outcome : ChatOutcome) (st : State)
  : State :=
  match nth_error (tasks st) i with
  | Some t =>
      match stage t with
      | AwaitingChat =>
          match outcome with
          | ChatRejected =>
              {| _llm := _llm st; _results := _results st;
                 _running := _running st; _selectedLLM := _selectedLLM st;
                 _ollamaInstance := _ollamaInstance st;
                 responses := responses st; clock := clock st;
                 counter := counter st; activations := activations st;
                 tasks := replace_at i (set_stage ChatThrew) (tasks st);
                 done_events := done_events st;
                 list_requests := list_requests st |}
          | ChatFulfilled response =>
              (* counter += 1 *)
              let counter' := fun r' =>
                if Nat.eqb r' (run t) then S (counter st r')
                else counter st r' in
              match response with
              | None =>
                  (* if (!response) return *)
                  {| _llm := _llm st; _results := _results st;
                     _running := _running st;
                     _selectedLLM := _selectedLLM st;
                     _ollamaInstance := _ollamaInstance st;
                     responses := responses st; clock := clock st;
                     counter := counter'; activations := activations st;
                     tasks :=
                       replace_at i (set_stage ReturnedEarly) (tasks st);
                     done_events := done_events st;
                     list_requests := list_requests st |}
              | Some response =>
                  {| _llm := _llm st;
                     _results :=
                       _results st ++ [pushed t response (clock st)];
                     _running := _running st;
                     _selectedLLM := _selectedLLM st;
                     _ollamaInstance := _ollamaInstance st;
                     responses := responses st; clock := clock st;
                     counter := counter'; activations := activations st;
                     tasks :=
                       replace_at i
                         (set_stage
                            (AwaitingAdd (added t response (clock st))))
                         (tasks st);
                     done_events := done_events st;
                     list_requests := list_requests st |}
              end
          end
      | _ => st
      end
  | None => st
  end.

(** The callback resumed after [await responses.add(...)] (lines
    143-151). *)
Definition after_add (i : nat) (ok : bool) (st : State) : State :=
  match nth_error (tasks st) i with
  | Some t =>
      match stage t with
      | AwaitingAdd record =>
          if ok then
            {| _llm := _llm st; _results := _results st;
               _running :=
                 if Nat.eqb (length (_selectedLLM st)) (counter st (run t))
                 then false else _running st;
               _selectedLLM := _selectedLLM st;
               _ollamaInstance := _ollamaInstance st;
               responses := responses st ++ [record];
               clock := clock st;
               counter := counter st; activations := activations st;
               tasks := replace_at i (set_stage RanToEnd) (tasks st);
               done_events := S (done_events st);
               list_requests := list_requests st |}
          else
            {| _llm := _llm st; _results := _results st;
               _running := _running st; _selectedLLM := _selectedLLM st;
               _ollamaInstance := _ollamaInstance st;
               responses := responses st; clock := clock st;
               counter := counter st; activations := activations st;
               tasks := replace_at i (set_stage AddThrew) (tasks st);
               done_events := done_events st;
               list_requests := list_requests st |}
      | _ => st
      end
  | None => st
  end.

(** ** Events and runs of the machine *)

Inductive Event :=
| Tick (now : string)
| Change (idx : nat)
| Click (randomUUID : string) (input : option string)
| ChatSettles (task : nat) (outcome : ChatOutcome)
| AddSettles (task : nat) (ok : bool).

Definition tick (now : string) (st : State) : State :=
  {| _llm := _llm st; _results := _results st; _running := _running st;
     _selectedLLM := _selectedLLM st; _ollamaInstance := _ollamaInstance st;
     responses := responses st; clock := now; counter := counter st;
     activations := activations st; tasks := tasks st;
     done_events := done_events st; list_requests := list_requests st |}.

Definition step (st : State) (ev : Event) : State :=
  match ev with
  | Tick now => tick now st
  | Change idx => change idx st
  | Click u input => _handleClick u input st
  | ChatSettles i outcome => after_chat i outcome st
  | AddSettles i ok => after_add i ok st
  end.

Definition exec (evs : list Event) (st : State) : State :=
  fold_left step evs st.

(** ** Notions in which the properties of a run are stated *)

(** The callback ran through its last line. *)
Definition ran (s : Stage) : bool :=
  match s with
  | RanToEnd => true
  | _ => false
  end.

(** The callback got past [await chat(...)], hence past [counter += 1]. *)
Definition passed (s : Stage) : bool :=
  match s with
  | AwaitingChat | ChatThrew => false
  | _ => true
  end.

(** What identifies a record of a run: model, query and run identifier. *)
Definition key_of_record (rec : TResponse.t) : string * string * string :=
  (TResponse.model_name rec, TResponse.query rec, TResponse.group_id rec).

Definition key_of_task (t : Task) : string * string * string :=
  (TLLM.name (llm t), queryInput t, uuid t).

Definition eqb_key (a b : string * string * string) : bool :=
  String.eqb (fst (fst a)) (fst (fst b))
  && String.eqb (snd (fst a)) (snd (fst b))
  && String.eqb (snd a) (snd b).

(** A record on its way to the table is the one its callback built. *)
Definition in_flight_ok (t : Task) : bool :=
  match stage t with
  | AwaitingAdd rec => eqb_key (key_of_record rec) (key_of_task t)
  | _ => true
  end.

Definition wf (st : State) : bool := forallb in_flight_ok (tasks st).





(** An event of the run whose callbacks start at index [first]: one of
    its requests settles; the clock and the checkboxes may move too. *)
Definition own (first : nat) (ev : Event) : bool :=
  match ev with
  | Tick _ | Change _ => true
  | Click _ _ => false
  | ChatSettles i _ | AddSettles i _ => first <=? i
  end.

(** The chat request of callback [i] is answered. *)
Definition fulfils (i : nat) (ev : Event) : bool :=
  match ev with
  | ChatSettles i' (ChatFulfilled _) => i' =? i
  | _ => false
  end.

(** The event hands a record to the table and the table takes it. *)
Definition persists (st : State) (ev : Event) : option (Task * TResponse.t) :=
  match ev with
  | AddSettles i true =>
      match nth_error (tasks st) i with
      | Some t =>
          match stage t with
          | AwaitingAdd rec => Some (t, rec)
          | _ => None
          end
      | None => None
      end
  | _ => None
  end.

(** The state of a run of [n] callbacks of the activation [r], started
    over the callbacks [old] and a table of [base] records, in which the
    callback [j] of the run has not got past its chat request. *)
Definition stuck (old : list Task) (r n j base : nat) (st : State) : Prop :=
  exists mine,
    tasks st = old ++ mine
    /\ length mine = n
    /\ Forall (fun t => run t = r) mine
    /\ counter st r = length (filter (fun t => passed (stage t)) mine)
    /\ option_map (fun t => passed (stage t)) (nth_error mine j) = Some false
    /\ length (_selectedLLM st) = n
    /\ _running st = true
    /\ length (responses st)
       = base + length (filter (fun t => ran (stage t)) mine).



(** The write of callback [i] succeeds: the first time it settles. *)
Fixpoint stored (i : nat) (evs : list Event) : bool :=
  match evs with
  | [] => false
  | AddSettles i' ok :: evs' => if i' =? i then ok else stored i evs'
  | _ :: evs' => stored i evs'
  end.

(** The requests of callback [i] succeed: its chat request is answered
    with a response the first time it settles, and then its write
    succeeds. *)
Fixpoint succeeds (i : nat) (evs : list Event) : bool :=
  match evs with
  | [] => false
  | ChatSettles i' outcome :: evs' =>
      if i' =? i then
        match outcome with
        | ChatFulfilled (Some _) => stored i evs'
        | _ => false
        end
      else succeeds i evs'
  | _ :: evs' => succeeds i evs'
  end.

Definition stage_at (i : nat) (st : State) : option Stage :=
  option_map stage (nth_error (tasks st) i).

End Generator.

(** * The exporter (arena-viewer.ts, lines 93-170) *)

Module Viewer.

Local Open Scope string_scope.

Definition TAB : ascii := "009"%char.
Definition LF : ascii := "010"%char.
Definition CR : ascii := "013"%char.

Definition is_tab_cr_lf (c : ascii) : bool :=
  Ascii.eqb c TAB || Ascii.eqb c CR || Ascii.eqb c LF.

Definition is_cr_lf (c : ascii) : bool :=
  Ascii.eqb c CR || Ascii.eqb c LF.

(** [value.replace(/[\t\r\n]/g, " ")] *)
Fixpoint replace_tab_cr_lf (value : string) : string :=
  match value with
  | EmptyString => EmptyString
  | String c rest =>
      String (if is_tab_cr_lf c then " "%char else c) (replace_tab_cr_lf rest)
  end.

(** [message.replace(/[\r\n]+/g, " ")]: every maximal run of carriage
    returns and line feeds becomes one space. *)
Fixpoint replace_cr_lf_runs (message : string) : string :=
  match message with
  | EmptyString => EmptyString
  | String c rest =>
      if is_cr_lf c then
        match rest with
        | EmptyString => String " " EmptyString
        | String c' _ =>
            if is_cr_lf c' then replace_cr_lf_runs rest
            else String " " (replace_cr_lf_runs rest)
        end
      else String c (replace_cr_lf_runs rest)
  end.

(** [string | number] *)
Inductive Value :=
| Str (s : string)
| Num (x : float).

Definition escapeTSVValue (value : Value) : string :=
  match value with
  | Str s => replace_tab_cr_lf s
  | Num x => JS.Number_toString x
  end.

(** [Array.prototype.join] *)
Fixpoint join (sep : string) (l : list string) : string :=
  match l with
  | [] => ""
  | [x] => x
  | x :: l' => x ++ sep ++ join sep l'
  end.

Definition headers : list string :=
  [ "Family"; "Model"; "Parameters"; "Size"; "Query"; "Response";
    "Total Duration"; "Load Duration"; "Prompt Eval Token";
    "Prompt Eval Duration"; "Prompt Eval Token/s"; "Response Token";
    "Response Duration"; "Response Token/s"; "Created"; "Group" ].

(** The byte order mark U+FEFF, as the Blob encodes it. *)
Definition bom : string :=
  String "239" (String "187" (String "191" EmptyString)).

(** What a click on the export button does. *)
Inductive Effect :=
| Alert (message : string)
| Download (filename type content : string).

Section Exporter.

(** [humanFileSize] of ./utils, which is not among the sources. *)
Variable humanFileSize : float -> string.

Definition row (result : TResponse.t) : list string :=
  [ escapeTSVValue (Str (TResponse.model_family result));
    escapeTSVValue (Str (TResponse.model_name result));
    escapeTSVValue (Str (TResponse.parameters result));
    escapeTSVValue (Str (humanFileSize (TResponse.size result)));
    escapeTSVValue (Str (TResponse.query result));
    escapeTSVValue (Str (replace_cr_lf_runs (TResponse.message result)));
    escapeTSVValue
      (Str (JS.toFixed 2 (TResponse.total_duration result / 1000000)%float));
    escapeTSVValue
      (Str (JS.toFixed 2 (TResponse.load_duration result / 1000000)%float));
    escapeTSVValue (Num (TResponse.prompt_eval_count result));
    escapeTSVValue
      (Str (JS.toFixed 2
              (TResponse.prompt_eval_duration result / 1000000)%float));
    escapeTSVValue
      (Str (JS.toFixed 2
              (TResponse.prompt_eval_count result
                 / TResponse.prompt_eval_duration result
               * 1000000000)%float));
    escapeTSVValue (Num (TResponse.eval_count result));
    escapeTSVValue
      (Str (JS.toFixed 2 (TResponse.eval_duration result / 1000000)%float));
    escapeTSVValue
      (Str (JS.toFixed 2
              (TResponse.eval_count result / TResponse.eval_duration result
               * 1000000000)%float));
    escapeTSVValue (Str (TResponse.created_at result));
    escapeTSVValue (Str (TResponse.group_id result)) ].

Definition tsvContent (_responses : list TResponse.t) : string :=
  join (String LF "")
    (join (String TAB "") (map (fun h => escapeTSVValue (Str h)) headers)
     :: map (fun r => join (String TAB "") (row r)) _responses).

Definition _exportToExcel (_responses : option (list TResponse.t))
  : Effect :=
  match _responses with
  | None => Alert "No data to export."
  | Some [] => Alert "No data to export."
  | Some rs =>
      Download "responses.tsv" "text/tab-separated-values;charset=utf-8;"
        (bom ++ tsvContent rs)
  end.

End Exporter.

(** ** Reading the artifact *)

(** A string without tab, carriage return and line feed. *)
Fixpoint clean (s : string) : bool :=
  match s with
  | EmptyString => true
  | String c rest => negb (is_tab_cr_lf c) && clean rest
  end.

(** The pieces of [s] between the occurrences of [sep]
    ([String.prototype.split] with a one-character separator). *)
Fixpoint split_on (sep : ascii) (s : string) : list string :=
  match s with
  | EmptyString => [EmptyString]
  | String c rest =>
      if Ascii.eqb c sep then EmptyString :: split_on sep rest
      else
        match split_on sep rest with
        | piece :: pieces => String c piece :: pieces
        | [] => [String c EmptyString]
        end
  end.

(** A string in which the character [sep] does not occur. *)
Fixpoint free (sep : ascii) (s : string) : bool :=
  match s with
  | EmptyString => true
  | String c rest => negb (Ascii.eqb c sep) && free sep rest
  end.

(** The text of the artifact as a table: its lines, cut at the tabs. *)
Definition table_of (content : string) : list (list string) :=
  map (split_on TAB) (split_on LF content).

(** Every tab, carriage return and line feed of [s] is turned into one
    space and nothing else is changed: same length, same characters
    elsewhere. *)
Fixpoint each_replaced (s cell : string) : bool :=
  match s, cell with
  | EmptyString, EmptyString => true
  | String c s', String d cell' =>
      (if is_tab_cr_lf c then Ascii.eqb d " " else Ascii.eqb d c)
      && each_replaced s' cell'
  | _, _ => false
  end.

(** ** The columns as the specification lists them *)

(** A duration in milliseconds, and a throughput in tokens per second,
    as the exporter prints them. *)
Definition milliseconds (duration : float) : string :=
  JS.toFixed 2 (duration / 1000000)%float.

Definition per_second (count duration : float) : string :=
  JS.toFixed 2 (count / duration * 1000000000)%float.

(** Family, model name, parameters, human-readable size, query, response
    text, total duration, load duration, prompt-eval token count,
    prompt-eval duration, prompt-eval tokens per second, response token
    count, response duration, response tokens per second, created-at, run
    identifier. *)
Definition columns (humanFileSize : float -> string) (r : TResponse.t)
  : list string :=
  [ replace_tab_cr_lf (TResponse.model_family r);
    replace_tab_cr_lf (TResponse.model_name r);
    replace_tab_cr_lf (TResponse.parameters r);
    replace_tab_cr_lf (humanFileSize (TResponse.size r));
    replace_tab_cr_lf (TResponse.query r);
    replace_tab_cr_lf (replace_cr_lf_runs (TResponse.message r));
    milliseconds (TResponse.total_duration r);
    milliseconds (TResponse.load_duration r);
    JS.Number_toString (TResponse.prompt_eval_count r);
    milliseconds (TResponse.prompt_eval_duration r);
    per_second (TResponse.prompt_eval_count r)
      (TResponse.prompt_eval_duration r);
    JS.Number_toString (TResponse.eval_count r);
    milliseconds (TResponse.eval_duration r);
    per_second (TResponse.eval_count r) (TResponse.eval_duration r);
    replace_tab_cr_lf (TResponse.created_at r);
    replace_tab_cr_lf (TResponse.group_id r) ].

(** Every maximal run of carriage returns and line feeds becomes one
    space, written when the run begins; [in_run] says whether the
    character before was one of them. *)
Fixpoint collapse (in_run : bool) (s : string) : string :=
  match s with
  | EmptyString => EmptyString
  | String c rest =>
      if is_cr_lf c then
        if in_run then collapse true rest
        else String " " (collapse true rest)
      else String c (collapse false rest)
  end.

End Viewer.

(** * Sample data *)

Module Scenario.

Import Generator.

Definition llama3 : ModelResponse.t :=
  {| ModelResponse.name := "llama3:8b";
     ModelResponse.size := 4661224676;
     ModelResponse.details_parameter_size := "8.0B";
     ModelResponse.details_family := "llama" |}.

Definition mistral : ModelResponse.t :=
  {| ModelResponse.name := "mistral:7b";
     ModelResponse.size := 4113301824;
     ModelResponse.details_parameter_size := "7.2B";
     ModelResponse.details_family := "llama" |}.

Definition answer (text : string) : ChatResponse.t :=
  {| ChatResponse.created_at := "2025-01-01T10:00:07.120Z";
     ChatResponse.message_content := text;
     ChatResponse.total_duration := 7000000000;
     ChatResponse.load_duration := 1500000000;
     ChatResponse.prompt_eval_count := 26;
     ChatResponse.prompt_eval_duration := 130000000;
     ChatResponse.eval_count := 298;
     ChatResponse.eval_duration := 4800000000 |}.

(** The component after a successful [firstUpdated] over an empty table,
    with both models ticked. *)
Definition ready : State :=
  exec [Change 0; Change 1]
    (fst (firstUpdated (ListFulfilled [llama3; mistral])
            (constructed [] "2025-01-01T10:00:00.000Z"))).

Definition submit : Event := Click "run-1" (Some "Hello").

(** The first of the two answers arrives and is stored. *)
Definition first_stored : list Event :=
  [ submit;
    ChatSettles 0 (ChatFulfilled (Some (answer "Hi")));
    AddSettles 0 true ].

(** Both requests are answered and both records stored. *)
Definition both_stored : list Event :=
  [ ChatSettles 1 (ChatFulfilled (Some (answer "Hi")));
    ChatSettles 0 (ChatFulfilled (Some (answer "Hey")));
    AddSettles 0 true;
    AddSettles 1 true ].

(** The first request is rejected, the second one answered and stored. *)
Definition one_rejected : list Event :=
  [ ChatSettles 1 (ChatFulfilled (Some (answer "Hi")));
    ChatSettles 0 ChatRejected;
    AddSettles 1 true ].

(** The first request is fulfilled with no response, the second one
    answered and stored. *)
Definition one_falsy : list Event :=
  [ ChatSettles 0 (ChatFulfilled None);
    ChatSettles 1 (ChatFulfilled (Some (answer "Hi")));
    AddSettles 1 true ].

(** A run submitted at 10:00:01 ... *)
Definition submitted_at_one : list Event :=
  [ Tick "2025-01-01T10:00:01.000Z"; submit ].

(** ... whose first answer arrives, and is stored, at 10:00:07.2. *)
Definition answered_at_seven : list Event :=
  [ Tick "2025-01-01T10:00:07.200Z";
    ChatSettles 0 (ChatFulfilled (Some (answer "Hi")));
    AddSettles 0 true ].

(** The second request is rejected and the first one answered; then the
    box of the second model is unticked and a second click comes, before
    the write of the first answer settles. *)
Definition overtaken : list Event :=
  [ ChatSettles 1 ChatRejected;
    ChatSettles 0 (ChatFulfilled (Some (answer "Hi")));
    Change 1;
    Click "run-2" (Some "Again");
    AddSettles 0 true ].

(** Both requests of the first run are answered; their writes are
    pending. *)
Definition answered_twice : list Event :=
  [ submit;
    ChatSettles 0 (ChatFulfilled (Some (answer "Hi")));
    ChatSettles 1 (ChatFulfilled (Some (answer "Hi"))) ].

Definition resubmit : Event := Click "run-2" (Some "Again").

(** The second request of the second run is rejected, then a write of the
    first run settles. *)
Definition left_behind : list Event :=
  [ ChatSettles 3 ChatRejected; AddSettles 0 true ].

(** Two paragraphs, with an empty line between them. *)
Definition two_paragraphs : string :=
  "Hi." ++ String Viewer.LF (String Viewer.LF "Bye.").

(** A stand-in for [humanFileSize]. *)
Definition size_label (bytes : float) : string := "4.3 GiB".

Definition stored (text : string) : TResponse.t :=
  {| TResponse.created_at := "2025-01-01T10:00:07.120Z";
     TResponse.eval_count := 298;
     TResponse.eval_duration := 4800000000;
     TResponse.model_family := "llama";
     TResponse.load_duration := 1500000000;
     TResponse.message := text;
     TResponse.model_name := "llama3:8b";
     TResponse.parameters := "8.0B";
     TResponse.prompt_eval_count := 26;
     TResponse.prompt_eval_duration := 130000000;
     TResponse.query := "Hello";
     TResponse.size := 4661224676;
     TResponse.started := "2025-01-01T10:00:07.200Z";
     TResponse.total_duration := 7000000000;
     TResponse.group_id := "run-1" |}.

End Scenario.

(** * Sessions of the run coordinator *)

Module Session.

Import Generator.

(** The component once [firstUpdated] has settled. *)
Definition initialised (table : list TResponse.t) (now : string)
    (outcome : ListOutcome) : State :=
  fst (firstUpdated outcome (constructed table now)).

Definition no_click (ev : Event) : bool :=
  match ev with
  | Click _ _ => false
  | _ => true
  end.

Definition is_change (ev : Event) : bool :=
  match ev with
  | Change _ => true
  | _ => false
  end.

(** The callback belongs to the activation [r] of [_handleClick]. *)
Definition of_run (r : nat) (t : Task) : bool := run t =? r.

(** The callback got a response, hence pushed an entry to [_results]. *)
Definition had_response (s : Stage) : bool :=
  match s with
  | AwaitingAdd _ | RanToEnd | AddThrew => true
  | _ => false
  end.

(** The run identifiers and queries of the clicks among the events. *)
Definition submissions (evs : list Event) : list (string * string) :=
  flat_map
    (fun ev =>
       match ev with
       | Click u input =>
           [(u, match input with Some v => v | None => ""%string end)]
       | _ => []
       end)
    evs.

(** The clock after the events. *)
Definition last_tick (now : string) (evs : list Event) : string :=
  fold_left
    (fun c ev => match ev with Tick now' => now' | _ => c end) evs now.

(** The same state but for the checkboxes. *)
Definition same_but_llm (a b : State) : Prop :=
  _results a = _results b
  /\ _running a = _running b
  /\ _selectedLLM a = _selectedLLM b
  /\ _ollamaInstance a = _ollamaInstance b
  /\ responses a = responses b
  /\ clock a = clock b
  /\ (forall r, counter a r = counter b r)
  /\ activations a = activations b
  /\ tasks a = tasks b
  /\ done_events a = done_events b
  /\ list_requests a = list_requests b.

(** Every callback belongs to an activation that took place, and the
    counter of an activation counts its callbacks that got past their
    chat request. *)
Definition counted (st : State) : Prop :=
  Forall (fun t => run t < activations st) (tasks st)
  /\ forall r,
       counter st r
       = length
           (filter (fun t => of_run r t && passed (stage t)) (tasks st)).

(** [_results] and the table hold what the callbacks put there, over
    [entries] earlier entries and [records] earlier records. *)
Definition tallied (entries records : nat) (st : State) : Prop :=
  length (_results st)
  = entries + length (filter (fun t => had_response (stage t)) (tasks st))
  /\ length (responses st)
     = records + length (filter (fun t => ran (stage t)) (tasks st)).

(** The state of a run of [n] callbacks of the activation [r], started
    over the callbacks [old], [entries] entries of [_results], a table of
    [records] records and [signals] events dispatched. *)
Definition settling (old : list Task) (r n entries records signals : nat)
    (st : State) : Prop :=
  exists mine,
    tasks st = old ++ mine
    /\ length mine = n
    /\ Forall (fun t => run t = r) mine
    /\ counter st r = length (filter (fun t => passed (stage t)) mine)
    /\ length (_selectedLLM st) = n
    /\ (forallb (fun t => ran (stage t)) mine = true -> _running st = false)
    /\ length (_results st)
       = entries + length (filter (fun t => had_response (stage t)) mine)
    /\ length (responses st)
       = records + length (filter (fun t => ran (stage t)) mine)
    /\ done_events st
       = signals + length (filter (fun t => ran (stage t)) mine).

(** What the callbacks and the table hold comes from the models [names]
    and from the submissions [subs]. *)
Definition sourced (names : list string) (subs : list (string * string))
    (table : list TResponse.t) (st : State) : Prop :=
  map TLLM.name (_llm st) = names
  /\ wf st = true
  /\ Forall (fun t => In (TLLM.name (llm t)) names
                      /\ In (uuid t, queryInput t) subs) (tasks st)
  /\ exists new,
       responses st = table ++ new
       /\ Forall (fun rec =>
                    In (TResponse.model_name rec) names
                    /\ In (TResponse.group_id rec, TResponse.query rec) subs)
            new.

End Session.

(** * Reading the sheet *)

Module Sheet.

Import Viewer.

(** The texts of a record, and the label of its size, hold no tab,
    carriage return or line feed. *)
Definition plain (humanFileSize : float -> string) (r : TResponse.t) : bool :=
  clean (TResponse.model_family r)
  && clean (TResponse.model_name r)
  && clean (TResponse.parameters r)
  && clean (humanFileSize (TResponse.size r))
  && clean (TResponse.query r)
  && clean (TResponse.message r)
  && clean (TResponse.created_at r)
  && clean (TResponse.group_id r).

End Sheet.

(** * Properties of the run coordinator *)

Section Lists.

Context {A : Type}.

Lemma replace_at_length (f : A -> A) (l : list A) (i : nat) :
  length (Generator.replace_at i f l) = length l.
Proof.
  revert i; induction l as [|x l IH]; intros [|i]; simpl; auto.
Qed.

Lemma replace_at_split (f : A -> A) (l : list A) (i : nat) (x : A) :
  nth_error l i = Some x ->
  exists l1 l2,
    l = l1 ++ x :: l2 /\ length l1 = i
    /\ Generator.replace_at i f l = l1 ++ f x :: l2.
Proof.
  revert i; induction l as [|y l IH]; intros [|i] H; simpl in *;
    try discriminate.
  - injection H as ->. exists [], l. auto.
  - destruct (IH i H) as (l1 & l2 & -> & <- & E).
    exists (y :: l1), l2. simpl. rewrite E. auto.
Qed.

Lemma replace_at_app_r (f : A -> A) (l1 l2 : list A) (i : nat) :
  length l1 <= i ->
  Generator.replace_at i f (l1 ++ l2)
  = l1 ++ Generator.replace_at (i - length l1) f l2.
Proof.
  revert i; induction l1 as [|y l1 IH]; intros i H; simpl in *.
  - now rewrite Nat.sub_0_r.
  - destruct i as [|i]; [lia|]. simpl. f_equal. apply IH. lia.
Qed.

Lemma filter_replace_same (p : A -> bool) (f : A -> A) l i x :
  nth_error l i = Some x -> p x = false -> p (f x) = false ->
  filter p (Generator.replace_at i f l) = filter p l.
Proof.
  intros H Hx Hfx.
  destruct (replace_at_split f l i x H) as (l1 & l2 & -> & _ & ->).
  rewrite !filter_app. simpl. now rewrite Hx, Hfx.
Qed.

Lemma filter_replace_gain (p : A -> bool) (f : A -> A) l i x :
  nth_error l i = Some x -> p x = false -> p (f x) = true ->
  Permutation (filter p (Generator.replace_at i f l)) (f x :: filter p l).
Proof.
  intros H Hx Hfx.
  destruct (replace_at_split f l i x H) as (l1 & l2 & -> & _ & ->).
  rewrite !filter_app. simpl. rewrite Hx, Hfx.
  symmetry. apply Permutation_middle.
Qed.

Lemma filter_replace_keep (p : A -> bool) (f : A -> A) l i x :
  nth_error l i = Some x -> p x = true -> p (f x) = true ->
  length (filter p (Generator.replace_at i f l)) = length (filter p l).
Proof.
  intros H Hx Hfx.
  destruct (replace_at_split f l i x H) as (l1 & l2 & -> & _ & ->).
  rewrite !filter_app, !length_app. simpl. now rewrite Hx, Hfx.
Qed.

Lemma forallb_replace_at (p : A -> bool) (f : A -> A) l i x :
  nth_error l i = Some x -> p (f x) = true ->
  forallb p l = true -> forallb p (Generator.replace_at i f l) = true.
Proof.
  intros H Hfx.
  destruct (replace_at_split f l i x H) as (l1 & l2 & -> & _ & ->).
  rewrite !forallb_app. simpl. rewrite Hfx.
  intros [-> [_ ->]%andb_prop]%andb_prop. reflexivity.
Qed.

Lemma filter_short (p : A -> bool) l i x :
  nth_error l i = Some x -> p x = false ->
  length (filter p l) < length l.
Proof.
  intros H Hx.
  destruct (nth_error_split l i H) as (l1 & l2 & -> & _).
  rewrite filter_app, !length_app. simpl. rewrite Hx.
  pose proof (filter_length_le p l1). pose proof (filter_length_le p l2).
  simpl. lia.
Qed.

End Lists.

Import Generator.

(** ** Steps, one event at a time *)

Lemma exec_app (evs1 evs2 : list Event) (st : State) :
  exec (evs1 ++ evs2) st = exec evs2 (exec evs1 st).
Proof. apply fold_left_app. Qed.

Lemma exec_cons (ev : Event) (evs : list Event) (st : State) :
  exec (ev :: evs) st = exec evs (step st ev).
Proof. reflexivity. Qed.

(** Splits a step into the cases of its handler. *)
Ltac handler_cases :=
  unfold _handleClick, after_chat, after_add;
  repeat match goal with
         | |- context [match ?x with _ => _ end] => destruct x eqn:?
         end;
  simpl.

Lemma step_results (st : State) (ev : Event) :
  exists more, _results (step st ev) = _results st ++ more.
Proof.
  destruct ev; simpl; handler_cases; eauto;
    exists []; now rewrite app_nil_r.
Qed.

(** C9: [_handleClick] leaves [_results] as it is, and no event ever
    removes an element: after any sequence of events, hence after any
    number of runs, the list still starts with everything it held
    before. *)
Theorem results_only_grow :
  (forall u input st, _results (_handleClick u input st) = _results st)
  /\ (forall evs st,
        exists more, _results (exec evs st) = _results st ++ more).
Proof.
  split.
  - intros u input st. unfold _handleClick. now destruct (negb _).
  - induction evs as [|ev evs IH]; intros st.
    + exists []. simpl. now rewrite app_nil_r.
    + rewrite exec_cons. destruct (IH (step st ev)) as [more2 E2].
      destruct (step_results st ev) as [more1 E1].
      exists (more1 ++ more2). now rewrite E2, E1, app_assoc.
Qed.

(** C8: when [list()] fails, [firstUpdated] rejects with its error after
    that one request and leaves [_llm] as it was, which for the component
    as constructed is empty. *)
Theorem firstUpdated_failure :
  forall st,
    snd (firstUpdated ListRejected st) = RejectedWith "Model not available"
    /\ _llm (fst (firstUpdated ListRejected st)) = _llm st
    /\ list_requests (fst (firstUpdated ListRejected st))
       = S (list_requests st)
    /\ forall table now,
         _llm (fst (firstUpdated ListRejected (constructed table now))) = []
         /\ list_requests
              (fst (firstUpdated ListRejected (constructed table now))) = 1.
Proof. intros st. repeat split. Qed.

(** C2, as stated, fails: with two models selected, the first response
    that is stored already emits the event, while the counter is at 1 and
    the component still busy. *)
Lemma signal_before_the_run_is_complete :
  length (_selectedLLM (exec Scenario.first_stored Scenario.ready)) = 2
  /\ counter (exec Scenario.first_stored Scenario.ready) 0 = 1
  /\ _running (exec Scenario.first_stored Scenario.ready) = true
  /\ done_events (exec Scenario.first_stored Scenario.ready) = 1.
Proof. vm_compute. repeat split. Qed.

Lemma step_signal (st : State) (ev : Event) :
  match persists st ev with
  | Some (t, rec) =>
      responses (step st ev) = responses st ++ [rec]
      /\ done_events (step st ev) = S (done_events st)
      /\ _running (step st ev)
         = (if length (_selectedLLM st) =? counter st (run t)
            then false else _running st)
  | None =>
      responses (step st ev) = responses st
      /\ done_events (step st ev) = done_events st
      /\ (_running (step st ev) = _running st
          \/ _running (step st ev) = true)
  end.
Proof.
  destruct ev as [now|idx|u input|i outcome|i [|]]; simpl; auto.
  - unfold _handleClick. destruct (negb _); simpl; auto.
  - unfold after_chat.
    destruct (nth_error (tasks st) i) as [t|]; auto.
    destruct (stage t); auto.
    destruct outcome as [[response|]|]; simpl; auto.
  - unfold after_add.
    destruct (nth_error (tasks st) i) as [t|]; auto.
    destruct (stage t); simpl; auto.
  - unfold after_add.
    destruct (nth_error (tasks st) i) as [t|]; auto.
    destruct (stage t); simpl; auto.
Qed.

(** C2, amended: the event is emitted by exactly those steps that store a
    record, once for each, and such a step clears [_running] if and only
    if the counter of its run equals the length of [_selectedLLM]; no
    other step emits the event or clears [_running].  Over any sequence
    of events, as many events are emitted as records are stored. *)
Theorem signal_after_each_stored_response :
  (forall st ev,
      match persists st ev with
      | Some (t, rec) =>
          responses (step st ev) = responses st ++ [rec]
          /\ done_events (step st ev) = S (done_events st)
          /\ _running (step st ev)
             = (if length (_selectedLLM st) =? counter st (run t)
                then false else _running st)
      | None =>
          responses (step st ev) = responses st
          /\ done_events (step st ev) = done_events st
          /\ (_running (step st ev) = _running st
              \/ _running (step st ev) = true)
      end)
  /\ (forall evs st,
        done_events (exec evs st) + length (responses st)
        = done_events st + length (responses (exec evs st))).
Proof.
  split; [exact step_signal|].
  induction evs as [|ev evs IH]; intros st; [reflexivity|].
  rewrite exec_cons. specialize (IH (step st ev)).
  pose proof (step_signal st ev) as H.
  destruct (persists st ev) as [[t rec]|].
  - destruct H as (Hr & Hd & _). rewrite Hr, Hd, length_app in IH.
    simpl in IH. lia.
  - destruct H as (Hr & Hd & _). rewrite Hr, Hd in IH. lia.
Qed.

(** C10: a chat request fulfilled with a falsy value advances the counter
    of its run, while nothing is pushed or stored and the callback is
    over; so a run of two models can end not busy with one record. *)
Theorem falsy_response_is_counted_without_record :
  forall st i t,
    nth_error (tasks st) i = Some t ->
    stage t = AwaitingChat ->
    let st' := step st (ChatSettles i (ChatFulfilled None)) in
    (counter st' (run t) = S (counter st (run t))
     /\ _results st' = _results st
     /\ responses st' = responses st
     /\ option_map stage (nth_error (tasks st') i) = Some ReturnedEarly)
    /\ exists evs,
         let final := exec (Scenario.submit :: evs) Scenario.ready in
         length (_selectedLLM final) = 2
         /\ map stage (tasks final) = [ReturnedEarly; RanToEnd]
         /\ _running final = false
         /\ length (responses final) = 1.
Proof.
  intros st i t Hnth Hstage st'. split.
  - subst st'. simpl. unfold after_chat. rewrite Hnth, Hstage. simpl.
    rewrite Nat.eqb_refl. repeat split.
    destruct (replace_at_split (set_stage ReturnedEarly) _ _ _ Hnth)
      as (l1 & l2 & _ & Hlen & ->).
    rewrite nth_error_app2 by lia.
    replace (i - length l1) with 0 by lia. reflexivity.
  - exists Scenario.one_falsy. vm_compute. repeat split.
Qed.

Lemma falsy_response_is_counted_without_record_witness :
  counter
    (step (step Scenario.ready Scenario.submit)
       (ChatSettles 0 (ChatFulfilled None))) 0 = 1
  /\ responses
       (step (step Scenario.ready Scenario.submit)
          (ChatSettles 0 (ChatFulfilled None))) = [].
Proof.
  destruct (falsy_response_is_counted_without_record
              (step Scenario.ready Scenario.submit) 0
              (spawn 0 "run-1" "Hello" (flip (toTLLM Scenario.llama3)))
              eq_refl eq_refl) as [(Hc & _ & Hr & _) _].
  split; [exact Hc | exact Hr].
Defined.

(** C7, at a failing input: the run is submitted at 10:00:01 and the
    response arrives at 10:00:07.2; the record that is stored, like the
    one in [_results], has the later time as [started]. *)
Lemma started_is_the_time_of_the_response :
  clock (exec Scenario.submitted_at_one Scenario.ready)
  = "2025-01-01T10:00:01.000Z"%string
  /\ responses
       (exec (Scenario.submitted_at_one ++ Scenario.answered_at_seven)
          Scenario.ready)
     = [Scenario.stored "Hi"]
  /\ map TResponse.started
       (responses
          (exec (Scenario.submitted_at_one ++ Scenario.answered_at_seven)
             Scenario.ready))
     = ["2025-01-01T10:00:07.200Z"%string]
  /\ map MemResult.started
       (_results
          (exec (Scenario.submitted_at_one ++ Scenario.answered_at_seven)
             Scenario.ready))
     = ["2025-01-01T10:00:07.200Z"%string].
Proof. vm_compute. repeat split. Qed.

(** ** A run with a request that is never answered *)

Lemma nth_error_replace_at {A} (f : A -> A) (l : list A) (i j : nat) :
  nth_error (replace_at i f l) j
  = if i =? j then option_map f (nth_error l j) else nth_error l j.
Proof.
  revert i j; induction l as [|x l IH]; intros [|i] [|j]; simpl; auto.
  - now destruct (Nat.eqb _ _).
Qed.

Lemma Forall_replace_at {A} (P : A -> Prop) (f : A -> A) l i :
  (forall x, P x -> P (f x)) -> Forall P l -> Forall P (replace_at i f l).
Proof.
  intros Hf. revert i; induction l as [|x l IH]; intros [|i] H; simpl; auto;
    inversion H; subst; constructor; auto.
Qed.

Lemma filter_length_gain {A} (p : A -> bool) (f : A -> A) l i x :
  nth_error l i = Some x -> p x = false -> p (f x) = true ->
  length (filter p (replace_at i f l)) = S (length (filter p l)).
Proof.
  intros H Hx Hfx.
  now rewrite (Permutation_length (filter_replace_gain p f l i x H Hx Hfx)).
Qed.

Lemma stuck_step old r n j base st ev :
  stuck old r n j base st ->
  own (length old) ev = true ->
  fulfils (length old + j) ev = false ->
  stuck old r n j base (step st ev).
Proof.
  intros (mine & Ht & Hn & Hr & Hc & Hj & Hs & Hb & Hl) Hown Hful.
  assert (Hlt : counter st r < n).
  { rewrite Hc, <- Hn.
    destruct (nth_error mine j) as [tj|] eqn:Hnj; [|discriminate].
    injection Hj as Hj.
    apply (filter_short (fun t => passed (stage t)) _ _ _ Hnj Hj). }
  destruct ev as [now|idx|u input|i outcome|i ok]; simpl in *.
  - exists mine. repeat split; eauto.
  - exists mine. repeat split; eauto.
  - discriminate.
  - apply Nat.leb_le in Hown.
    assert (Hrep : forall s,
               replace_at i (set_stage s) (tasks st)
               = old ++ replace_at (i - length old) (set_stage s) mine).
    { intros s. rewrite Ht. apply replace_at_app_r. lia. }
    unfold after_chat.
    replace (nth_error (tasks st) i) with (nth_error mine (i - length old))
      by (rewrite Ht; symmetry; apply nth_error_app2; lia).
    destruct (nth_error mine (i - length old)) as [t|] eqn:Hnth;
      [|exists mine; repeat split; eauto].
    destruct (stage t) eqn:Hstage;
      try (exists mine; repeat split; eauto; fail).
    assert (Hrun : run t = r).
    { rewrite Forall_forall in Hr. eapply Hr, nth_error_In; eauto. }
    assert (Hp : passed (stage t) = false) by now rewrite Hstage.
    assert (Hq : ran (stage t) = false) by now rewrite Hstage.
    destruct outcome as [response|].
    + assert (Hij : i - length old <> j).
      { apply Nat.eqb_neq in Hful. lia. }
      assert (Hj' : forall s,
                 nth_error (replace_at (i - length old) (set_stage s) mine) j
                 = nth_error mine j).
      { intros s. rewrite nth_error_replace_at.
        apply Nat.eqb_neq in Hij. now rewrite Hij. }
      destruct response as [response|]; simpl.
      * exists (replace_at (i - length old)
                  (set_stage (AwaitingAdd (added t response (clock st))))
                  mine).
        repeat split; simpl; rewrite ?Hj'; eauto.
        -- now rewrite replace_at_length.
        -- apply Forall_replace_at; auto.
        -- rewrite Hrun, Nat.eqb_refl, Hc.
           symmetry.
           apply (filter_length_gain (fun t => passed (stage t)) _ _ _ _ Hnth); auto.
        -- rewrite Hl. f_equal.
           now rewrite (filter_replace_same (fun t => ran (stage t))
                          _ _ _ _ Hnth).
      * exists (replace_at (i - length old) (set_stage ReturnedEarly) mine).
        repeat split; simpl; rewrite ?Hj'; eauto.
        -- now rewrite replace_at_length.
        -- apply Forall_replace_at; auto.
        -- rewrite Hrun, Nat.eqb_refl, Hc.
           symmetry.
           apply (filter_length_gain (fun t => passed (stage t)) _ _ _ _ Hnth); auto.
        -- rewrite Hl. f_equal.
           now rewrite (filter_replace_same (fun t => ran (stage t))
                          _ _ _ _ Hnth).
    + simpl.
      exists (replace_at (i - length old) (set_stage ChatThrew) mine).
      repeat split; simpl; rewrite ?Hj'; eauto.
      * now rewrite replace_at_length.
      * apply Forall_replace_at; auto.
      * rewrite Hc.
        now rewrite (filter_replace_same (fun t => passed (stage t))
                       _ _ _ _ Hnth).
      * rewrite nth_error_replace_at.
        destruct (Nat.eqb_spec (i - length old) j) as [<-|_]; auto.
        now rewrite Hnth.
      * rewrite Hl. f_equal.
        now rewrite (filter_replace_same (fun t => ran (stage t))
                       _ _ _ _ Hnth).
  - apply Nat.leb_le in Hown.
    assert (Hrep : forall s,
               replace_at i (set_stage s) (tasks st)
               = old ++ replace_at (i - length old) (set_stage s) mine).
    { intros s. rewrite Ht. apply replace_at_app_r. lia. }
    unfold after_add.
    replace (nth_error (tasks st) i) with (nth_error mine (i - length old))
      by (rewrite Ht; symmetry; apply nth_error_app2; lia).
    destruct (nth_error mine (i - length old)) as [t|] eqn:Hnth;
      [|exists mine; repeat split; eauto].
    destruct (stage t) eqn:Hstage;
      try (exists mine; repeat split; eauto; fail).
    assert (Hrun : run t = r).
    { rewrite Forall_forall in Hr. eapply Hr, nth_error_In; eauto. }
    assert (Hp : passed (stage t) = true) by now rewrite Hstage.
    assert (Hq : ran (stage t) = false) by now rewrite Hstage.
    assert (Hij : i - length old <> j).
    { intros E. subst j. rewrite Hnth in Hj. simpl in Hj. congruence. }
    assert (Hj' : forall s,
               nth_error (replace_at (i - length old) (set_stage s) mine) j
               = nth_error mine j).
    { intros s. rewrite nth_error_replace_at.
      apply Nat.eqb_neq in Hij. now rewrite Hij. }
    destruct ok; simpl.
    + exists (replace_at (i - length old) (set_stage RanToEnd) mine).
      repeat split; simpl; rewrite ?Hj'; eauto.
      * now rewrite replace_at_length.
      * apply Forall_replace_at; auto.
      * rewrite Hc. symmetry.
        apply (filter_replace_keep (fun t => passed (stage t))
                 _ _ _ _ Hnth); auto.
      * rewrite Hrun, Hs.
        destruct (Nat.eqb_spec n (counter st r)); [lia|assumption].
      * rewrite length_app, Hl. simpl.
        rewrite (filter_length_gain (fun t => ran (stage t))
                   _ _ _ _ Hnth); auto. lia.
    + exists (replace_at (i - length old) (set_stage AddThrew) mine).
      repeat split; simpl; rewrite ?Hj'; eauto.
      * now rewrite replace_at_length.
      * apply Forall_replace_at; auto.
      * rewrite Hc. symmetry.
        apply (filter_replace_keep (fun t => passed (stage t))
                 _ _ _ _ Hnth); auto.
      * rewrite Hl. f_equal.
        now rewrite (filter_replace_same (fun t => ran (stage t))
                       _ _ _ _ Hnth).
Qed.

Lemma stuck_exec old r n j base evs st :
  stuck old r n j base st ->
  forallb (own (length old)) evs = true ->
  existsb (fulfils (length old + j)) evs = false ->
  stuck old r n j base (exec evs st).
Proof.
  revert st; induction evs as [|ev evs IH]; intros st H Hown Hful; auto.
  simpl in Hown, Hful.
  apply andb_prop in Hown as [Hown1 Hown2].
  apply orb_false_elim in Hful as [Hful1 Hful2].
  rewrite exec_cons. apply IH; auto. now apply stuck_step.
Qed.

Lemma spawned_not_passed (p : Stage -> bool) r u q (sel : list TLLM.t) :
  p AwaitingChat = false ->
  filter (fun t => p (stage t)) (map (spawn r u q) sel) = [].
Proof.
  intros Hp. induction sel as [|l sel IH]; simpl; auto. now rewrite Hp.
Qed.

Lemma stuck_click st u input j :
  _ollamaInstance st = true ->
  j < length (filter TLLM.selected (_llm st)) ->
  stuck (tasks st) (activations st)
    (length (filter TLLM.selected (_llm st))) j (length (responses st))
    (_handleClick u input st).
Proof.
  intros Hinst Hj. unfold _handleClick. rewrite Hinst. simpl.
  eexists. simpl. split; [reflexivity|].
  rewrite length_map, Nat.eqb_refl, !spawned_not_passed by reflexivity.
  repeat split; auto.
  - apply Forall_forall. intros t [l [<- _]]%in_map_iff. reflexivity.
  - rewrite nth_error_map.
    destruct (nth_error _ j) eqn:E; [reflexivity|].
    apply nth_error_None in E. lia.
Qed.

(** ** The records of a run *)

Lemma eqb_key_eq a b : eqb_key a b = true -> a = b.
Proof.
  destruct a as [[a1 a2] a3], b as [[b1 b2] b3]. unfold eqb_key. simpl.
  intros [[H1 H2]%andb_prop H3]%andb_prop.
  apply String.eqb_eq in H1, H2, H3. congruence.
Qed.

Lemma eqb_key_refl a : eqb_key a a = true.
Proof.
  destruct a as [[a1 a2] a3]. unfold eqb_key. simpl.
  now rewrite !String.eqb_refl.
Qed.

Lemma filter_none {A} (p : A -> bool) l :
  (forall x, In x l -> p x = false) -> filter p l = [].
Proof.
  induction l as [|x l IH]; simpl; intros H; auto.
  rewrite (H x) by auto. auto.
Qed.

Lemma filter_all {A} (p : A -> bool) l :
  (forall x, In x l -> p x = true) -> filter p l = l.
Proof.
  induction l as [|x l IH]; simpl; intros H; auto.
  rewrite (H x) by auto. f_equal. auto.
Qed.


Lemma wf_settled st i t s :
  nth_error (tasks st) i = Some t ->
  in_flight_ok (set_stage s t) = true ->
  wf st = true ->
  forallb in_flight_ok (replace_at i (set_stage s) (tasks st)) = true.
Proof. intros H Hs Hwf. eapply forallb_replace_at; eauto. Qed.

(** Well-formedness holds at the start and is kept by every step. *)
Lemma wf_constructed table now outcome :
  wf (fst (firstUpdated outcome (constructed table now))) = true.
Proof. now destruct outcome. Qed.

Lemma wf_step st ev : wf st = true -> wf (step st ev) = true.
Proof.
  intros Hwf.
  destruct ev as [now|idx|u' input|i outcome|i ok]; simpl; auto.
  - unfold _handleClick. destruct (negb _); auto.
    unfold wf in *. simpl. rewrite forallb_app, Hwf. simpl.
    apply forallb_forall. intros t [l [<- _]]%in_map_iff. reflexivity.
  - unfold after_chat.
    destruct (nth_error (tasks st) i) as [t|] eqn:Hnth; auto.
    destruct (stage t) eqn:Hstage; auto.
    destruct outcome as [[response|]|]; unfold wf; simpl;
      eapply wf_settled; eauto.
    unfold in_flight_ok. simpl. apply eqb_key_refl.
  - unfold after_add.
    destruct (nth_error (tasks st) i) as [t|] eqn:Hnth; auto.
    destruct (stage t) eqn:Hstage; auto.
    destruct ok; unfold wf; simpl; eapply wf_settled; eauto.
Qed.

Lemma wf_exec evs st : wf st = true -> wf (exec evs st) = true.
Proof.
  revert st; induction evs as [|ev evs IH]; intros st H; auto.
  rewrite exec_cons. apply IH. now apply wf_step.
Qed.











(** ** From the events of a run to the stages of its callbacks *)

Lemma stage_at_settle i i' s' st st' :
  tasks st' = replace_at i' (set_stage s') (tasks st) ->
  stage_at i st'
  = if i' =? i then option_map (fun _ => s') (stage_at i st)
    else stage_at i st.
Proof.
  intros E. unfold stage_at. rewrite E, nth_error_replace_at.
  destruct (i' =? i); auto. now destruct (nth_error (tasks st) i).
Qed.

Lemma stage_at_click i s u input st :
  stage_at i st = Some s -> stage_at i (_handleClick u input st) = Some s.
Proof.
  unfold _handleClick, stage_at. destruct (negb _); auto. simpl.
  intros H. rewrite nth_error_app1; auto.
  apply nth_error_Some. now destruct (nth_error (tasks st) i).
Qed.

Lemma stage_at_after_chat i i' outcome s st :
  stage_at i st = Some s ->
  i' <> i \/ s <> AwaitingChat ->
  stage_at i (after_chat i' outcome st) = Some s.
Proof.
  intros H Hor. unfold after_chat.
  destruct (nth_error (tasks st) i') as [t'|] eqn:Hnth; auto.
  destruct (stage t') eqn:Hstage; auto.
  assert (Hne : i' <> i).
  { destruct Hor as [|Hs]; auto. intros ->. apply Hs.
    unfold stage_at in H. rewrite Hnth in H. simpl in H. congruence. }
  apply Nat.eqb_neq in Hne.
  destruct outcome as [[response|]|];
    erewrite stage_at_settle by reflexivity; now rewrite Hne.
Qed.

Lemma stage_at_after_add i i' ok s st :
  stage_at i st = Some s ->
  i' <> i \/ (forall rec, s <> AwaitingAdd rec) ->
  stage_at i (after_add i' ok st) = Some s.
Proof.
  intros H Hor. unfold after_add.
  destruct (nth_error (tasks st) i') as [t'|] eqn:Hnth; auto.
  destruct (stage t') eqn:Hstage; auto.
  assert (Hne : i' <> i).
  { destruct Hor as [|Hs]; auto. intros ->. apply (Hs record).
    unfold stage_at in H. rewrite Hnth in H. simpl in H. congruence. }
  apply Nat.eqb_neq in Hne.
  destruct ok; erewrite stage_at_settle by reflexivity; now rewrite Hne.
Qed.

Lemma ran_for_good i evs st :
  stage_at i st = Some RanToEnd -> stage_at i (exec evs st) = Some RanToEnd.
Proof.
  revert st; induction evs as [|ev evs IH]; intros st H; auto.
  rewrite exec_cons. apply IH.
  destruct ev as [now|idx|u input|i' outcome|i' ok]; simpl; auto.
  - now apply stage_at_click.
  - apply stage_at_after_chat; auto. right. discriminate.
  - apply stage_at_after_add; auto. right. discriminate.
Qed.

Lemma stored_ran i evs st rec :
  stage_at i st = Some (AwaitingAdd rec) ->
  stored i evs = true ->
  stage_at i (exec evs st) = Some RanToEnd.
Proof.
  revert st; induction evs as [|ev evs IH]; intros st H Hs;
    [discriminate|].
  rewrite exec_cons.
  destruct ev as [now|idx|u input|i' outcome|i' ok]; simpl in *.
  - apply IH; auto.
  - apply IH; auto.
  - apply IH; auto. now apply stage_at_click.
  - apply IH; auto. apply stage_at_after_chat; auto. right. discriminate.
  - destruct (Nat.eqb_spec i' i) as [->|Hne].
    + subst ok. apply ran_for_good.
      unfold after_add. unfold stage_at in H.
      destruct (nth_error (tasks st) i) as [t|] eqn:Hnth; [|discriminate].
      simpl in H. injection H as H. rewrite H.
      erewrite stage_at_settle by reflexivity.
      rewrite Nat.eqb_refl. unfold stage_at. now rewrite Hnth.
    + apply IH; auto. apply stage_at_after_add; auto.
Qed.

Lemma succeeds_ran i evs st :
  stage_at i st = Some AwaitingChat ->
  succeeds i evs = true ->
  stage_at i (exec evs st) = Some RanToEnd.
Proof.
  revert st; induction evs as [|ev evs IH]; intros st H Hs;
    [discriminate|].
  rewrite exec_cons.
  destruct ev as [now|idx|u input|i' outcome|i' ok]; simpl in *.
  - apply IH; auto.
  - apply IH; auto.
  - apply IH; auto. now apply stage_at_click.
  - destruct (Nat.eqb_spec i' i) as [->|Hne].
    + destruct outcome as [[response|]|]; try discriminate.
      unfold stage_at in H.
      destruct (nth_error (tasks st) i) as [t|] eqn:Hnth; [|discriminate].
      simpl in H. injection H as H.
      apply (stored_ran i evs _ (added t response (clock st))); auto.
      unfold after_chat. rewrite Hnth, H.
      erewrite stage_at_settle by reflexivity.
      rewrite Nat.eqb_refl. unfold stage_at. now rewrite Hnth.
    + apply IH; auto. apply stage_at_after_chat; auto.
  - apply IH; auto. apply stage_at_after_add; auto. right. discriminate.
Qed.




(** * Properties of the exporter *)

Import Viewer.

Local Open Scope string_scope.

(** ** The number formats at known values *)

Example toString_of_fractions :
  map JS.Number_toString [1 / 10; 1 / 3; 1 / 1000000; 1 / 10000000]%float
  = ["0.1"; "0.3333333333333333"; "0.000001"; "1e-7"]%list.
Proof. vm_compute. reflexivity. Qed.

Example toString_of_extremes :
  map JS.Number_toString
    [1e21; 0x1p-1074; 0x1.fffffffffffffp+1023; 26; 0 / 0; -1 / 0]%float
  = ["1e+21"; "5e-324"; "1.7976931348623157e+308"; "26"; "NaN";
     "-Infinity"]%list.
Proof. vm_compute. reflexivity. Qed.

(** 1.005 is a little less than 1.005 as a binary64 number, 0.125 is a
    tie. *)
Example toFixed_rounds_the_binary_value :
  map (JS.toFixed 2) [1005 / 1000; 1 / 8; 5 / 2; -1 / 1000; 0; 1e21]%float
  = ["1.00"; "0.13"; "2.50"; "-0.00"; "0.00"; "1e+21"]%list.
Proof. vm_compute. reflexivity. Qed.

Example row_of_a_record :
  row Scenario.size_label (Scenario.stored "Hi")
  = [ "llama"; "llama3:8b"; "8.0B"; "4.3 GiB"; "Hello"; "Hi"; "7000.00";
      "1500.00"; "26"; "130.00"; "200.00"; "298"; "4800.00"; "62.08";
      "2025-01-01T10:00:07.120Z"; "run-1" ]%list.
Proof. vm_compute. reflexivity. Qed.

(** ** Strings without tabs and line ends *)

Lemma clean_append s1 s2 : clean (s1 ++ s2) = clean s1 && clean s2.
Proof.
  induction s1 as [|c s1 IH]; simpl; auto. now rewrite IH, andb_assoc.
Qed.

Lemma clean_replace s : clean (replace_tab_cr_lf s) = true.
Proof.
  induction s as [|c s IH]; simpl; auto. rewrite IH, andb_true_r.
  destruct (is_tab_cr_lf c) eqn:E; [reflexivity|now rewrite E].
Qed.

Lemma replace_clean s : clean s = true -> replace_tab_cr_lf s = s.
Proof.
  induction s as [|c s IH]; simpl; auto.
  intros [Hc Hs]%andb_prop. apply negb_true_iff in Hc.
  now rewrite Hc, IH.
Qed.

Lemma clean_free s :
  clean s = true -> free TAB s = true /\ free LF s = true.
Proof.
  induction s as [|c s IH]; simpl; auto.
  intros [Hc Hs]%andb_prop. destruct (IH Hs) as [-> ->].
  apply negb_true_iff in Hc. unfold is_tab_cr_lf in Hc.
  apply orb_false_elim in Hc as [[-> _]%orb_false_elim ->]. auto.
Qed.

Lemma clean_zeros n : clean (JS.zeros n) = true.
Proof. induction n; simpl; auto. Qed.

Lemma clean_substring a b s : clean s = true -> clean (substring a b s) = true.
Proof.
  revert a b; induction s as [|c s IH]; intros [|a] [|b]; simpl; auto;
    intros [Hc Hs]%andb_prop; auto.
  now rewrite Hc, IH.
Qed.

Lemma clean_digit d : (d < 10)%N -> is_tab_cr_lf (JS.digit d) = false.
Proof.
  intros H.
  assert (E : In d [0; 1; 2; 3; 4; 5; 6; 7; 8; 9]%N).
  { simpl. lia. }
  simpl in E. repeat destruct E as [<-|E]; try reflexivity. contradiction.
Qed.

Lemma clean_digits_from fuel n : clean (JS.digits_from fuel n) = true.
Proof.
  revert n; induction fuel as [|fuel IH]; intros n; simpl; auto.
  destruct (N.ltb_spec n 10).
  - simpl. now rewrite clean_digit.
  - rewrite clean_append, IH. simpl.
    rewrite clean_digit; auto. apply N.mod_lt. lia.
Qed.

Lemma clean_digits n : clean (JS.digits n) = true.
Proof. apply clean_digits_from. Qed.

Lemma clean_positive_toString m e : clean (JS.positive_toString m e) = true.
Proof.
  unfold JS.positive_toString. destruct (JS.shortest m e) as [s n].
  repeat match goal with
         | |- context [if ?b then _ else _] => destruct b
         end;
    repeat (rewrite ?clean_append, ?clean_zeros, ?clean_digits,
             ?clean_substring; simpl);
    auto using clean_digits.
Qed.

Lemma clean_Number_toString x : clean (JS.Number_toString x) = true.
Proof.
  unfold JS.Number_toString.
  destruct (Prim2SF x) as [s|s| |s m e]; try destruct s; auto;
    rewrite clean_append, clean_positive_toString; reflexivity.
Qed.

Lemma clean_fixed f n : clean (JS.fixed f n) = true.
Proof.
  unfold JS.fixed. destruct f as [|f]; [apply clean_digits|].
  assert (H : forall s, clean s = true ->
                clean (substring 0 (String.length s - S f) s ++ "."
                         ++ substring (String.length s - S f) (S f) s) = true).
  { intros s Hs. rewrite !clean_append, !clean_substring; auto. }
  destruct (String.length (JS.digits n) <=? S f)%nat; apply H.
  - now rewrite clean_append, clean_zeros, clean_digits.
  - apply clean_digits.
Qed.

Lemma clean_toFixed f x : clean (JS.toFixed f x) = true.
Proof.
  unfold JS.toFixed.
  pose proof (clean_Number_toString x) as Hx.
  destruct (Prim2SF x) as [s|s| |s m e]; auto using clean_fixed.
  rewrite clean_append.
  destruct (Qle_bool _ _);
    rewrite ?clean_positive_toString, ?clean_fixed; now destruct s.
Qed.

(** ** Cutting a joined text back into its pieces *)

Lemma free_append sep s1 s2 :
  free sep (s1 ++ s2) = free sep s1 && free sep s2.
Proof.
  induction s1 as [|c s1 IH]; simpl; auto. now rewrite IH, andb_assoc.
Qed.

Lemma split_on_free sep s : free sep s = true -> split_on sep s = [s].
Proof.
  induction s as [|c s IH]; simpl; auto.
  intros [Hc Hs]%andb_prop. apply negb_true_iff in Hc.
  now rewrite Hc, IH.
Qed.

Lemma split_on_append sep s rest :
  free sep s = true ->
  split_on sep (s ++ String sep rest) = s :: split_on sep rest.
Proof.
  induction s as [|c s IH]; simpl.
  - now rewrite Ascii.eqb_refl.
  - intros [Hc Hs]%andb_prop. apply negb_true_iff in Hc.
    now rewrite Hc, IH.
Qed.

Lemma split_on_join sep x l :
  forallb (free sep) (x :: l) = true ->
  split_on sep (join (String sep "") (x :: l)) = x :: l.
Proof.
  revert x; induction l as [|y l IH]; intros x H.
  - simpl in *. apply split_on_free. now rewrite andb_true_r in H.
  - change (join (String sep "") (x :: y :: l))
      with (x ++ String sep (join (String sep "") (y :: l))).
    simpl in H. apply andb_prop in H as [Hx H].
    rewrite split_on_append by assumption. f_equal. now apply IH.
Qed.

Lemma free_join sep other l :
  Ascii.eqb other sep = false ->
  forallb (free sep) l = true ->
  free sep (join (String other "") l) = true.
Proof.
  intros Hne. induction l as [|x l IH]; auto.
  intros [Hx Hl]%andb_prop. destruct l as [|y l]; auto.
  change (join (String other "") (x :: y :: l))
    with (x ++ String other (join (String other "") (y :: l))).
  rewrite free_append, Hx. simpl. rewrite Hne. simpl. now apply IH.
Qed.

Section Exporter.

Variable humanFileSize : float -> string.

Lemma escape_clean v : clean (escapeTSVValue v) = true.
Proof.
  destruct v; simpl; [apply clean_replace | apply clean_Number_toString].
Qed.

Lemma row_clean r : forallb clean (row humanFileSize r) = true.
Proof. unfold row. cbn [forallb]. now rewrite !escape_clean. Qed.

Lemma forallb_clean_free l :
  forallb clean l = true ->
  forallb (free TAB) l = true /\ forallb (free LF) l = true.
Proof.
  induction l as [|x l IH]; simpl; auto.
  intros [Hx Hl]%andb_prop.
  destruct (clean_free x Hx) as [-> ->], (IH Hl) as [-> ->]. auto.
Qed.

Lemma row_columns r : row humanFileSize r = columns humanFileSize r.
Proof.
  unfold row, columns, milliseconds, per_second. simpl.
  now rewrite !(replace_clean _ (clean_toFixed _ _)).
Qed.

Lemma columns_of_row r :
  split_on TAB (join (String TAB "") (row humanFileSize r))
  = row humanFileSize r.
Proof.
  pose proof (row_clean r) as H. apply forallb_clean_free in H as [H _].
  unfold row in *. now apply split_on_join.
Qed.

Lemma table_of_tsvContent rs :
  table_of (tsvContent humanFileSize rs)
  = (headers :: map (row humanFileSize) rs)%list.
Proof.
  unfold table_of, tsvContent.
  rewrite split_on_join.
  - simpl map at 1. f_equal.
    rewrite map_map. apply map_ext. intros r. apply columns_of_row.
  - cbn [forallb]. apply andb_true_intro. split; [reflexivity|].
    apply forallb_forall. intros line [r [<- _]]%in_map_iff.
    apply free_join; [reflexivity|].
    pose proof (row_clean r) as H. now apply forallb_clean_free in H.
Qed.

End Exporter.

Lemma each_replaced_replace s : each_replaced s (replace_tab_cr_lf s) = true.
Proof.
  induction s as [|c s IH]; simpl; auto. rewrite IH, andb_true_r.
  destruct (is_tab_cr_lf c); apply Ascii.eqb_refl.
Qed.

Lemma replace_cr_lf_runs_collapse s :
  replace_cr_lf_runs s = collapse false s
  /\ forall c, is_cr_lf c = true ->
       replace_cr_lf_runs (String c s) = String " " (collapse true s).
Proof.
  induction s as [|d s [IH1 IH2]].
  - split; [reflexivity|]. intros c Hc. simpl. now rewrite Hc.
  - split.
    + destruct (is_cr_lf d) eqn:Hd.
      * rewrite (IH2 d Hd). simpl. now rewrite Hd.
      * simpl. now rewrite Hd, IH1.
    + intros c Hc.
      change (replace_cr_lf_runs (String c (String d s)))
        with (if is_cr_lf c
              then if is_cr_lf d then replace_cr_lf_runs (String d s)
                   else String " " (replace_cr_lf_runs (String d s))
              else String c (replace_cr_lf_runs (String d s))).
      rewrite Hc. destruct (is_cr_lf d) eqn:Hd.
      * rewrite (IH2 d Hd). simpl. now rewrite Hd.
      * simpl. now rewrite Hd, IH1.
Qed.

(** C4: for a record list that is not empty, the export is a download
    whose content, after the byte order mark, reads as a table whose first
    line holds the sixteen headers and whose further lines hold, record by
    record, the sixteen columns in the order of the specification, the
    durations divided by 1,000,000. *)
Theorem export_is_header_and_rows_of_sixteen_columns :
  forall humanFileSize r rs,
    exists content,
      _exportToExcel humanFileSize (Some (r :: rs))
      = Download "responses.tsv" "text/tab-separated-values;charset=utf-8;"
          (bom ++ content)
      /\ table_of content
         = (headers :: map (columns humanFileSize) (r :: rs))%list
      /\ headers
         = [ "Family"; "Model"; "Parameters"; "Size"; "Query"; "Response";
             "Total Duration"; "Load Duration"; "Prompt Eval Token";
             "Prompt Eval Duration"; "Prompt Eval Token/s";
             "Response Token"; "Response Duration"; "Response Token/s";
             "Created"; "Group" ]%list
      /\ length headers = 16
      /\ Forall (fun line => length line = 16) (table_of content)
      /\ Forall
           (fun result =>
              nth 6 (columns humanFileSize result) ""
              = JS.toFixed 2 (TResponse.total_duration result / 1000000)%float
              /\ nth 7 (columns humanFileSize result) ""
                 = JS.toFixed 2
                     (TResponse.load_duration result / 1000000)%float
              /\ nth 9 (columns humanFileSize result) ""
                 = JS.toFixed 2
                     (TResponse.prompt_eval_duration result / 1000000)%float
              /\ nth 12 (columns humanFileSize result) ""
                 = JS.toFixed 2
                     (TResponse.eval_duration result / 1000000)%float)
           (r :: rs).
Proof.
  intros humanFileSize r rs. exists (tsvContent humanFileSize (r :: rs)).
  assert (E : table_of (tsvContent humanFileSize (r :: rs))
              = (headers :: map (columns humanFileSize) (r :: rs))%list).
  { rewrite table_of_tsvContent. f_equal. apply map_ext, row_columns. }
  repeat split; auto.
  - rewrite E. constructor; [reflexivity|].
    apply Forall_forall. intros line [result [<- _]]%in_map_iff. reflexivity.
  - apply Forall_forall. intros result _. repeat split.
Qed.

(** C6, as stated, fails: the two line feeds between the paragraphs of a
    response become one space, not one space each. *)
Lemma empty_line_becomes_one_space :
  nth 5 (row Scenario.size_label (Scenario.stored Scenario.two_paragraphs)) ""
  = "Hi. Bye."
  /\ each_replaced Scenario.two_paragraphs
       (nth 5 (row Scenario.size_label
                 (Scenario.stored Scenario.two_paragraphs)) "")
     = false.
Proof. split; reflexivity. Qed.

(** C6, amended: no cell of a row holds a tab, a carriage return or a line
    feed, so that the line of the row cuts at its tabs into these sixteen
    cells; in the query every such character is turned into one space; in
    the response every tab is turned into one space and every maximal run
    of carriage returns and line feeds into one space. *)
Theorem cells_hold_no_tab_or_line_end :
  forall humanFileSize r,
    forallb clean (row humanFileSize r) = true
    /\ length (row humanFileSize r) = 16
    /\ split_on TAB (join (String TAB "") (row humanFileSize r))
       = row humanFileSize r
    /\ each_replaced (TResponse.query r) (nth 4 (row humanFileSize r) "")
       = true
    /\ nth 5 (row humanFileSize r) ""
       = replace_tab_cr_lf (collapse false (TResponse.message r))
    /\ each_replaced (collapse false (TResponse.message r))
         (nth 5 (row humanFileSize r) "")
       = true.
Proof.
  intros humanFileSize r.
  split; [apply row_clean|]. split; [reflexivity|].
  split; [apply columns_of_row|].
  cbn [row nth escapeTSVValue].
  rewrite (proj1 (replace_cr_lf_runs_collapse _)).
  repeat split; apply each_replaced_replace.
Qed.

(** ** Numerals of two decimals *)

Local Open Scope N_scope.

Lemma digits_from_enough f1 f2 n :
  (1 <= f1)%nat -> (1 <= f2)%nat ->
  n < 10 ^ N.of_nat f1 -> n < 10 ^ N.of_nat f2 ->
  JS.digits_from f1 n = JS.digits_from f2 n.
Proof.
  revert f2 n; induction f1 as [|f1 IH]; intros [|f2] n H1 H2 Hn1 Hn2;
    try lia.
  simpl. destruct (N.ltb_spec n 10) as [|Hge]; auto.
  rewrite Nat2N.inj_succ, N.pow_succ_r' in Hn1, Hn2.
  assert (n / 10 < 10 ^ N.of_nat f1)
    by (apply N.Div0.div_lt_upper_bound; lia).
  assert (n / 10 < 10 ^ N.of_nat f2)
    by (apply N.Div0.div_lt_upper_bound; lia).
  assert (1 <= n / 10) by (apply N.div_le_lower_bound; lia).
  f_equal. apply IH; auto.
  - destruct f1; [simpl in *; lia | lia].
  - destruct f2; [simpl in *; lia | lia].
Qed.

Lemma digits_fuel n : n < 10 ^ N.of_nat (S (N.to_nat (N.log2 n))).
Proof.
  rewrite Nat2N.inj_succ, N2Nat.id.
  destruct (N.eq_dec n 0) as [->|Hn]; [reflexivity|].
  apply N.lt_le_trans with (2 ^ N.succ (N.log2 n)).
  - apply N.log2_spec. lia.
  - apply N.pow_le_mono_l. lia.
Qed.

Lemma digits_small n : n < 10 -> JS.digits n = String (JS.digit n) "".
Proof.
  intros H. unfold JS.digits. simpl.
  destruct (N.ltb_spec n 10); [reflexivity|lia].
Qed.

Lemma digits_step n :
  10 <= n ->
  JS.digits n = (JS.digits (n / 10) ++ String (JS.digit (n mod 10)) "")%string.
Proof.
  intros H. unfold JS.digits at 1. simpl.
  destruct (N.ltb_spec n 10); [lia|]. f_equal.
  pose proof (digits_fuel n) as Hf.
  rewrite Nat2N.inj_succ, N.pow_succ_r' in Hf.
  apply digits_from_enough.
  - assert (3 <= N.log2 n) by (apply (N.log2_le_mono 8 n); lia). lia.
  - lia.
  - apply N.Div0.div_lt_upper_bound. lia.
  - apply digits_fuel.
Qed.

Lemma digit_value_digit d : d < 10 -> JS.digit_value (JS.digit d) = Some d.
Proof.
  intros H.
  assert (E : In d [0; 1; 2; 3; 4; 5; 6; 7; 8; 9]) by (simpl; lia).
  simpl in E. repeat destruct E as [<-|E]; try reflexivity. contradiction.
Qed.

Lemma read_digits_app acc s1 s2 :
  JS.read_digits acc (s1 ++ s2)
  = match JS.read_digits acc s1 with
    | Some a => JS.read_digits a s2
    | None => None
    end.
Proof.
  revert acc; induction s1 as [|c s1 IH]; intros acc; simpl; auto.
  destruct (JS.digit_value c); auto.
Qed.

Lemma read_digits_digits n : JS.read_digits 0 (JS.digits n) = Some n.
Proof.
  induction n as [n IH] using (well_founded_induction N.lt_wf_0).
  destruct (N.ltb_spec n 10) as [Hlt|Hge].
  - rewrite digits_small by assumption. simpl.
    rewrite digit_value_digit by assumption. f_equal; lia.
  - rewrite digits_step, read_digits_app by assumption.
    rewrite IH by (apply N.Div0.div_lt_upper_bound; lia).
    cbn [JS.read_digits].
    rewrite digit_value_digit by (apply N.mod_lt; lia).
    f_equal. symmetry. apply N.div_mod. lia.
Qed.

Lemma digits_not_empty n : JS.digits n <> ""%string.
Proof.
  destruct (N.ltb_spec n 10) as [Hlt|Hge].
  - now rewrite digits_small.
  - rewrite digits_step by assumption.
    now destruct (JS.digits (n / 10)).
Qed.

Lemma length_append s1 s2 :
  String.length (s1 ++ s2) = (String.length s1 + String.length s2)%nat.
Proof. induction s1 as [|c s1 IH]; simpl; auto. Qed.

Lemma append_assoc s1 s2 s3 : ((s1 ++ s2) ++ s3 = s1 ++ s2 ++ s3)%string.
Proof. induction s1 as [|c s1 IH]; simpl; auto. now rewrite IH. Qed.

Lemma substring_all s : substring 0 (String.length s) s = s.
Proof. induction s as [|c s IH]; simpl; auto. now rewrite IH. Qed.

Lemma substring_head a b :
  substring 0 (String.length a) (a ++ b) = a.
Proof.
  induction a as [|c a IH]; simpl.
  - now destruct b.
  - now rewrite IH.
Qed.

Lemma substring_tail a b :
  substring (String.length a) (String.length b) (a ++ b) = b.
Proof.
  induction a as [|c a IH]; simpl; auto. apply substring_all.
Qed.

Lemma point_after_digits acc a b v :
  JS.read_digits acc a = Some v ->
  JS.before_point (a ++ String "." b) = a
  /\ JS.after_point (a ++ String "." b) = Some b.
Proof.
  revert acc; induction a as [|c a IH]; intros acc H; simpl in *.
  - auto.
  - destruct (Ascii.eqb_spec c ".") as [->|_]; [discriminate|].
    destruct (JS.digit_value c); [|discriminate].
    destruct (IH _ H) as [-> ->]. auto.
Qed.

(** [fixed 2 n] is a numeral of [n / 100], a point, and the two digits of
    [n mod 100]. *)
Lemma fixed2_parts n :
  exists a b,
    JS.fixed 2 n = (a ++ String "." b)%string
    /\ a <> ""%string
    /\ JS.read_digits 0 a = Some (n / 100)
    /\ JS.read_digits 0 b = Some (n mod 100)
    /\ String.length b = 2%nat.
Proof.
  assert (Hparts : forall a d1 d0,
             d1 < 10 -> d0 < 10 -> (1 <= String.length a)%nat ->
             JS.digits n
             = (a ++ String (JS.digit d1) (String (JS.digit d0) ""))%string ->
             JS.fixed 2 n
             = (a ++ String "." (String (JS.digit d1)
                                   (String (JS.digit d0) "")))%string).
  { intros a d1 d0 H1 H0 Ha E. unfold JS.fixed. rewrite E.
    set (b := String (JS.digit d1) (String (JS.digit d0) "")).
    rewrite length_append.
    change (String.length b) with 2%nat.
    destruct (Nat.leb_spec (String.length a + 2) 2); [lia|].
    rewrite length_append. change (String.length b) with 2%nat.
    replace (String.length a + 2 - 2)%nat with (String.length a) by lia.
    rewrite substring_head.
    change 2%nat with (String.length b). now rewrite substring_tail. }
  destruct (N.ltb_spec n 10) as [H10|H10].
  - exists "0"%string, (String "0" (String (JS.digit n) "")).
    repeat split.
    + unfold JS.fixed. now rewrite digits_small.
    + discriminate.
    + now rewrite N.div_small by lia.
    + cbn [JS.read_digits]. change (JS.digit_value "0") with (Some 0).
      rewrite digit_value_digit by assumption.
      rewrite N.mod_small by lia. f_equal; lia.
  - pose proof (digits_step n H10) as E.
    assert (Hd0 : n mod 10 < 10) by (apply N.mod_lt; lia).
    assert (Hmod : n mod 100 = 10 * (n / 10 mod 10) + n mod 10).
    { change 100 with (10 * 10). rewrite N.Div0.mod_mul_r. lia. }
    destruct (N.ltb_spec n 100) as [H100|H100].
    + assert (Hd1 : n / 10 < 10)
        by (apply N.Div0.div_lt_upper_bound; lia).
      rewrite (digits_small _ Hd1) in E.
      exists "0"%string,
        (String (JS.digit (n / 10)) (String (JS.digit (n mod 10)) "")).
      repeat split.
      * unfold JS.fixed. now rewrite E.
      * discriminate.
      * now rewrite N.div_small by lia.
      * cbn [JS.read_digits]. rewrite !digit_value_digit by assumption.
        f_equal. rewrite Hmod, (N.mod_small (n / 10)) by assumption. lia.
    + assert (H10' : 10 <= n / 10)
        by (apply N.div_le_lower_bound; lia).
      assert (Hd1 : n / 10 mod 10 < 10) by (apply N.mod_lt; lia).
      rewrite (digits_step _ H10'), N.Div0.div_div in E.
      change (10 * 10) with 100 in E.
      rewrite append_assoc in E. simpl in E.
      exists (JS.digits (n / 100)),
        (String (JS.digit (n / 10 mod 10)) (String (JS.digit (n mod 10)) "")).
      repeat split.
      * apply Hparts; auto.
        pose proof (digits_not_empty (n / 100)).
        destruct (JS.digits (n / 100)); [contradiction|simpl; lia].
      * apply digits_not_empty.
      * apply read_digits_digits.
      * cbn [JS.read_digits]. rewrite !digit_value_digit by assumption.
        f_equal. rewrite Hmod. lia.
Qed.

Lemma unsigned_value_fixed2 n :
  JS.unsigned_value (JS.fixed 2 n) = Some (Z.of_N n # 100)
  /\ JS.decimal_value (JS.fixed 2 n) = Some (Z.of_N n # 100).
Proof.
  destruct (fixed2_parts n) as (a & b & -> & Ha & Hra & Hrb & Hb).
  destruct (point_after_digits 0 a b _ Hra) as [Hbefore Hafter].
  assert (E : JS.unsigned_value (a ++ String "." b) = Some (Z.of_N n # 100)).
  { unfold JS.unsigned_value. rewrite Hbefore, Hafter.
    destruct a as [|c a]; [contradiction|].
    rewrite Hra, Hrb, Hb. do 2 f_equal.
    change (10 ^ N.of_nat 2) with 100. f_equal.
    rewrite (N.div_mod n 100) at 3 by lia. lia. }
  split; [exact E|].
  destruct a as [|c a]; [contradiction|].
  simpl in Hra. unfold JS.decimal_value.
  change ((String c a ++ String "." b)%string)
    with (String c (a ++ String "." b)) in *.
  destruct c as [[] [] [] [] [] [] [] []]; try exact E; discriminate.
Qed.

Local Close Scope N_scope.

Lemma value_positive m e : (0 < JS.value m e)%Q.
Proof.
  unfold JS.value, JS.pow. apply Qmult_lt_0_compat; [reflexivity|].
  destruct (Z.leb_spec 0 e).
  - replace 0%Q with (inject_Z 0) by reflexivity. rewrite <- Zlt_Qlt.
    apply Z.pow_pos_nonneg; lia.
  - reflexivity.
Qed.

(** [toFixed(2)] of a finite number below 10^21 is the numeral of the
    multiple of 1/100 nearest to it. *)
Lemma toFixed2_nearest x sign m e :
  Prim2SF x = S754_finite sign m e ->
  Qle_bool (JS.pow 10 21) (JS.value m e) = false ->
  let n := Z.of_N (JS.nearest 2 (JS.value m e)) in
  JS.decimal_value (JS.toFixed 2 x)
  = Some (if sign then (- (n # 100))%Q else n # 100)
  /\ (inject_Z n - (1 # 2) <= 100 * JS.value m e)%Q
  /\ (100 * JS.value m e < inject_Z n + (1 # 2))%Q.
Proof.
  intros Hx Hsmall n. split.
  - unfold JS.toFixed. rewrite Hx, Hsmall.
    destruct (unsigned_value_fixed2 (JS.nearest 2 (JS.value m e)))
      as [Hu Hd].
    destruct sign.
    + change (("-" ++ JS.fixed 2 (JS.nearest 2 (JS.value m e)))%string)
        with (String "-" (JS.fixed 2 (JS.nearest 2 (JS.value m e)))).
      unfold JS.decimal_value. now rewrite Hu.
    + exact Hd.
  - pose proof (value_positive m e) as Hpos.
    set (v := JS.value m e) in *.
    assert (Hn : n = Qfloor (v * inject_Z 100 + (1 # 2))%Q).
    { unfold n, JS.nearest. apply Z2N.id.
      change 0%Z with (Qfloor 0). apply Qfloor_resp_le.
      assert (0 <= v * inject_Z 100)%Q
        by (apply Qmult_le_0_compat; [now apply Qlt_le_weak|discriminate]).
      apply Qle_trans with (v * inject_Z 100)%Q; auto.
      rewrite <- Qplus_0_r at 1. apply Qplus_le_r. discriminate. }
    pose proof (Qfloor_le (v * inject_Z 100 + (1 # 2))%Q) as Hlo.
    pose proof (Qlt_floor (v * inject_Z 100 + (1 # 2))%Q) as Hhi.
    rewrite <- Hn in Hlo, Hhi. rewrite inject_Z_plus in Hhi.
    change (inject_Z 100) with 100%Q in *. change (inject_Z 1) with 1%Q in *.
    split; lra.
Qed.

(** ** Throughput over a zero duration *)

Lemma per_second_zero_duration count :
  (0 <? count)%float = true ->
  per_second count 0 = "Infinity"%string.
Proof.
  intros Hpos. unfold per_second, JS.toFixed, JS.Number_toString.
  rewrite ltb_spec in Hpos.
  rewrite mul_spec, div_spec.
  destruct (Prim2SF count) as [s|[|]| |[|] m e]; try discriminate;
    reflexivity.
Qed.

Lemma per_second_zero_count_and_duration :
  per_second 0 0 = "NaN"%string.
Proof. reflexivity. Qed.

(** C5, as stated, fails: for 298 tokens in 4.8 seconds the cell reads
    62.08, which is not the value of 298 / 4800000000 * 1000000000. *)
Lemma throughput_cell_is_rounded :
  exists cell value,
    JS.decimal_value
      (nth 13 (row Scenario.size_label (Scenario.stored "Hi")) "")
    = Some cell
    /\ JS.exact (298 / 4800000000 * 1000000000)%float = Some value
    /\ nth 13 (row Scenario.size_label (Scenario.stored "Hi")) ""
       = "62.08"%string
    /\ JS.Number_toString (298 / 4800000000 * 1000000000)%float
       = "62.08333333333333"%string
    /\ ~ (cell == value)%Q.
Proof.
  eexists. eexists.
  split; [vm_compute; reflexivity|].
  split; [vm_compute; reflexivity|].
  split; [vm_compute; reflexivity|].
  split; [vm_compute; reflexivity|].
  intros H. apply Qeq_bool_iff in H. vm_compute in H. discriminate.
Qed.

(** C5, amended: each throughput cell is [toFixed(2)] of
    count / duration * 1e9.  When that number is finite and below 10^21,
    the cell is the numeral, with two decimals, of the multiple of 1/100
    nearest to it, so it differs from it by 1/200 at most, and "0.00"
    when it is zero; over a zero duration the cell is "Infinity" for a
    positive count and "NaN" for a zero count. *)
Theorem throughput_cells_are_rounded_to_hundredths :
  forall humanFileSize r,
    (nth 10 (row humanFileSize r) ""
     = per_second (TResponse.prompt_eval_count r)
         (TResponse.prompt_eval_duration r)
     /\ nth 13 (row humanFileSize r) ""
        = per_second (TResponse.eval_count r) (TResponse.eval_duration r))
    /\ (forall count duration sign m e,
          Prim2SF (count / duration * 1000000000)%float
          = S754_finite sign m e ->
          Qle_bool (JS.pow 10 21) (JS.value m e) = false ->
          exists n : Z,
            JS.decimal_value (per_second count duration)
            = Some (if sign then (- (n # 100))%Q else n # 100)
            /\ (inject_Z n - (1 # 2) <= 100 * JS.value m e)%Q
            /\ (100 * JS.value m e < inject_Z n + (1 # 2))%Q)
    /\ (forall count duration sign,
          Prim2SF (count / duration * 1000000000)%float = S754_zero sign ->
          per_second count duration = "0.00"%string)
    /\ (forall count,
          (0 <? count)%float = true ->
          per_second count 0 = "Infinity"%string)
    /\ per_second 0 0 = "NaN"%string.
Proof.
  intros humanFileSize r. split; [|split; [|split; [|split]]].
  - rewrite row_columns. split; reflexivity.
  - intros count duration sign m e Hx Hsmall.
    eexists. apply (toFixed2_nearest _ sign m e Hx Hsmall).
  - intros count duration sign Hx. unfold per_second, JS.toFixed.
    now rewrite Hx.
  - apply per_second_zero_duration.
  - apply per_second_zero_count_and_duration.
Qed.

Lemma throughput_cells_are_rounded_to_hundredths_witness :
  (exists n : Z,
      JS.decimal_value (per_second 298 4800000000) = Some (n # 100)
      /\ (inject_Z n - (1 # 2)
          <= 100 * JS.value 8737452402059946 (-47))%Q
      /\ (100 * JS.value 8737452402059946 (-47)
          < inject_Z n + (1 # 2))%Q)
  /\ per_second 298 0 = "Infinity"%string.
Proof.
  destruct (throughput_cells_are_rounded_to_hundredths Scenario.size_label
              (Scenario.stored "Hi"))
    as (_ & Hnear & _ & Hinf & _).
  split.
  - exact (Hnear 298%float 4800000000%float false 8737452402059946%positive
             (-47)%Z eq_refl eq_refl).
  - exact (Hinf 298%float eq_refl).
Defined.

Local Close Scope string_scope.

(** * Sessions: what holds in every state the component can reach *)

Import Session.

Lemma exec_snoc (evs : list Event) (ev : Event) (st : State) :
  exec (evs ++ [ev]) st = step (exec evs st) ev.
Proof. unfold exec. now rewrite fold_left_app. Qed.

Lemma filter_length_replace_same {A} (p : A -> bool) (f : A -> A) l i x :
  nth_error l i = Some x -> p (f x) = p x ->
  length (filter p (replace_at i f l)) = length (filter p l).
Proof.
  intros H E.
  destruct (replace_at_split f l i x H) as (l1 & l2 & -> & _ & ->).
  rewrite !filter_app, !length_app. simpl. rewrite E.
  now destruct (p x).
Qed.

(** ** The counters *)

Lemma counted_initialised table now outcome :
  counted (initialised table now outcome).
Proof. destruct outcome; split; simpl; auto. Qed.

Lemma counted_settled st i t s r :
  nth_error (tasks st) i = Some t ->
  length
    (filter (fun t => of_run r t && passed (stage t))
       (replace_at i (set_stage s) (tasks st)))
  = length (filter (fun t => of_run r t && passed (stage t)) (tasks st))
    + (if of_run r t && passed s && negb (passed (stage t)) then 1 else 0)
    - (if of_run r t && passed (stage t) && negb (passed s) then 1 else 0).
Proof.
  intros H.
  destruct (replace_at_split (set_stage s) _ _ _ H) as (l1 & l2 & -> & _ & ->).
  rewrite !filter_app, !length_app. simpl.
  change (of_run r (set_stage s t)) with (of_run r t).
  destruct (of_run r t), (passed s), (passed (stage t)); simpl; lia.
Qed.

Lemma counted_step st ev : counted st -> counted (step st ev).
Proof.
  intros [Hrun Hcount].
  destruct ev as [now|idx|u input|i outcome|i ok]; simpl.
  - split; assumption.
  - split; assumption.
  - unfold _handleClick. destruct (negb _); [split; assumption|].
    split; simpl.
    + apply Forall_app. split.
      * eapply Forall_impl; [|exact Hrun]. simpl. lia.
      * apply Forall_forall. intros t [l [<- _]]%in_map_iff. simpl. lia.
    + intros r. rewrite filter_app, length_app.
      rewrite (filter_none _ (map _ _)).
      * simpl. rewrite Nat.add_0_r.
        destruct (Nat.eqb_spec r (activations st)) as [->|_]; auto.
        rewrite filter_none; auto.
        intros t Hin. rewrite Forall_forall in Hrun.
        specialize (Hrun t Hin). unfold of_run.
        destruct (Nat.eqb_spec (run t) (activations st)); [lia|reflexivity].
      * intros t [l [<- _]]%in_map_iff. apply andb_false_r.
  - unfold after_chat.
    destruct (nth_error (tasks st) i) as [t|] eqn:Hnth; [|split; assumption].
    destruct (stage t) eqn:Hstage; try (split; assumption).
    assert (Hkeep : forall s,
               Forall (fun t => run t < activations st)
                 (replace_at i (set_stage s) (tasks st))).
    { intros s. apply Forall_replace_at; auto. }
    destruct outcome as [[response|]|]; split; simpl; auto; intros r;
      rewrite (counted_settled _ _ _ _ _ Hnth), Hstage, <- Hcount; simpl;
      unfold of_run; rewrite ?(Nat.eqb_sym r (run t));
      destruct (run t =? r); simpl; lia.
  - unfold after_add.
    destruct (nth_error (tasks st) i) as [t|] eqn:Hnth; [|split; assumption].
    destruct (stage t) eqn:Hstage; try (split; assumption).
    assert (Hkeep : forall s,
               Forall (fun t => run t < activations st)
                 (replace_at i (set_stage s) (tasks st))).
    { intros s. apply Forall_replace_at; auto. }
    destruct ok; split; simpl; auto; intros r;
      rewrite (counted_settled _ _ _ _ _ Hnth), Hstage, <- Hcount; simpl;
      destruct (of_run r t); simpl; lia.
Qed.

Lemma counted_exec evs st : counted st -> counted (exec evs st).
Proof.
  revert st; induction evs as [|ev evs IH]; intros st H; auto.
  rewrite exec_cons. apply IH. now apply counted_step.
Qed.

(** X1: in every state of a session, the counter of an activation of
    [_handleClick] is the number of its callbacks that got past their chat
    request; it never exceeds the number of callbacks of the activation. *)
Theorem counter_counts_answered_requests :
  forall table now outcome evs r,
    counter (exec evs (initialised table now outcome)) r
    = length
        (filter (fun t => of_run r t && passed (stage t))
           (tasks (exec evs (initialised table now outcome))))
    /\ counter (exec evs (initialised table now outcome)) r
       <= length
            (filter (of_run r)
               (tasks (exec evs (initialised table now outcome)))).
Proof.
  intros table now outcome evs r.
  destruct (counted_exec evs _ (counted_initialised table now outcome))
    as [_ Hcount].
  split; [apply Hcount|]. rewrite Hcount.
  generalize (tasks (exec evs (initialised table now outcome))).
  induction l as [|t l IH]; simpl; auto.
  destruct (of_run r t), (passed (stage t)); simpl; lia.
Qed.

(** ** A click with no model selected *)

Lemma filter_not_empty {A} (p : A -> bool) l i x :
  nth_error l i = Some x -> p x = true -> 1 <= length (filter p l).
Proof.
  intros H Hx.
  destruct (nth_error_split l i H) as (l1 & l2 & -> & _).
  rewrite filter_app, length_app. simpl. rewrite Hx. simpl. lia.
Qed.

Lemma instance_initialised table now outcome evs :
  _ollamaInstance (exec evs (initialised table now outcome)) = true.
Proof.
  assert (H : forall st, _ollamaInstance st = true ->
                _ollamaInstance (exec evs st) = true).
  { induction evs as [|ev evs IH]; intros st Hst; auto.
    rewrite exec_cons. apply IH.
    destruct ev; simpl; auto; handler_cases; auto. }
  apply H. now destruct outcome.
Qed.

Lemma idle_selection_step st ev :
  counted st -> _selectedLLM st = [] -> _running st = true ->
  no_click ev = true ->
  _selectedLLM (step st ev) = [] /\ _running (step st ev) = true.
Proof.
  intros [_ Hcount] Hsel Hrun Hev.
  destruct ev as [now|idx|u input|i outcome|i ok]; simpl in *; auto;
    try discriminate.
  - unfold after_chat.
    destruct (nth_error (tasks st) i) as [t|]; auto.
    destruct (stage t); auto.
    destruct outcome as [[response|]|]; auto.
  - unfold after_add.
    destruct (nth_error (tasks st) i) as [t|] eqn:Hnth; auto.
    destruct (stage t) eqn:Hstage; auto.
    destruct ok; simpl; auto. split; auto.
    rewrite Hsel, Hcount. simpl.
    assert (1 <= length (filter (fun t0 => of_run (run t) t0
                                           && passed (stage t0)) (tasks st))).
    { apply (filter_not_empty _ _ i t Hnth).
      unfold of_run. now rewrite Nat.eqb_refl, Hstage. }
    destruct (length _); [lia|assumption].
Qed.

(** X2: when no model is selected, a click creates no request and
    leaves the component busy: whatever happens afterwards, short of
    another click, [_running] stays true. *)
Theorem click_without_selection_stays_busy :
  forall table now outcome evs u input later,
    filter TLLM.selected (_llm (exec evs (initialised table now outcome)))
    = [] ->
    forallb no_click later = true ->
    tasks (_handleClick u input (exec evs (initialised table now outcome)))
    = tasks (exec evs (initialised table now outcome))
    /\ _running
         (exec later
            (_handleClick u input
               (exec evs (initialised table now outcome))))
       = true.
Proof.
  intros table now outcome evs u input later Hsel Hlater.
  set (st := exec evs (initialised table now outcome)) in *.
  assert (Hinst : _ollamaInstance st = true)
    by apply instance_initialised.
  assert (Hclick : _handleClick u input st = step st (Click u input))
    by reflexivity.
  split.
  - unfold _handleClick. rewrite Hinst. simpl.
    now rewrite Hsel, app_nil_r.
  - assert (H : forall st',
               counted st' -> _selectedLLM st' = [] -> _running st' = true ->
               _running (exec later st') = true).
    { clear - Hlater. induction later as [|ev later IH]; intros st' Hc Hs Hr;
        auto.
      simpl in Hlater. apply andb_prop in Hlater as [Hev Hlater].
      rewrite exec_cons.
      destruct (idle_selection_step st' ev Hc Hs Hr Hev) as [Hs' Hr'].
      apply IH; auto. now apply counted_step. }
    apply H.
    + rewrite Hclick. apply counted_step, counted_exec, counted_initialised.
    + unfold _handleClick. rewrite Hinst. simpl. exact Hsel.
    + unfold _handleClick. now rewrite Hinst.
Qed.

Lemma click_without_selection_stays_busy_witness :
  _running
    (exec [Tick "2025-01-01T10:00:09.000Z"%string; Change 0]
       (_handleClick "run-0" None
          (exec [] (initialised [] "2025-01-01T10:00:00.000Z"
                      (ListFulfilled [Scenario.llama3])))))
  = true.
Proof.
  exact (proj2 (click_without_selection_stays_busy []
                  "2025-01-01T10:00:00.000Z"%string
                  (ListFulfilled [Scenario.llama3]) [] "run-0"%string None
                  [Tick "2025-01-01T10:00:09.000Z"%string; Change 0]
                  eq_refl eq_refl)).
Defined.

(** ** A run all of whose requests succeed *)

Lemma filter_length_replace {A} (p : A -> bool) (f : A -> A) l i x :
  nth_error l i = Some x ->
  length (filter p (replace_at i f l)) + (if p x then 1 else 0)
  = length (filter p l) + (if p (f x) then 1 else 0).
Proof.
  intros H.
  destruct (replace_at_split f l i x H) as (l1 & l2 & -> & _ & ->).
  rewrite !filter_app, !length_app. simpl.
  destruct (p x), (p (f x)); simpl; lia.
Qed.

Lemma forallb_replaced {A} (p : A -> bool) (f : A -> A) l i x :
  nth_error l i = Some x ->
  forallb p (replace_at i f l) = true -> p (f x) = true.
Proof.
  intros H.
  destruct (replace_at_split f l i x H) as (l1 & l2 & -> & _ & ->).
  rewrite forallb_app. simpl.
  now intros [_ [-> _]%andb_prop]%andb_prop.
Qed.

Lemma all_passed_when_last_ran mine k t :
  nth_error mine k = Some t ->
  passed (stage t) = true ->
  forallb (fun t => ran (stage t)) (replace_at k (set_stage RanToEnd) mine)
  = true ->
  length (filter (fun t => passed (stage t)) mine) = length mine.
Proof.
  intros H Hp.
  destruct (replace_at_split (set_stage RanToEnd) _ _ _ H)
    as (l1 & l2 & -> & _ & ->).
  rewrite forallb_app. simpl.
  intros [H1 H2]%andb_prop.
  assert (Hall : forall l, forallb (fun t => ran (stage t)) l = true ->
                   filter (fun t => passed (stage t)) l = l).
  { intros l Hl. apply filter_all. intros x Hx.
    rewrite forallb_forall in Hl. specialize (Hl x Hx).
    now destruct (stage x). }
  rewrite filter_app. simpl. rewrite Hp, (Hall l1 H1), (Hall l2 H2).
  now rewrite !length_app.
Qed.

Lemma settling_step old r n entries records signals st ev :
  settling old r n entries records signals st ->
  own (length old) ev = true ->
  settling old r n entries records signals (step st ev).
Proof.
  intros (mine & Ht & Hn & Hr & Hc & Hs & Hb & He & Hl & Hd) Hown.
  destruct ev as [now|idx|u input|i outcome|i ok]; simpl in *.
  - exists mine. repeat split; auto.
  - exists mine. repeat split; auto.
  - discriminate.
  - apply Nat.leb_le in Hown.
    assert (Hrep : forall s,
               replace_at i (set_stage s) (tasks st)
               = old ++ replace_at (i - length old) (set_stage s) mine).
    { intros s. rewrite Ht. apply replace_at_app_r. lia. }
    unfold after_chat.
    replace (nth_error (tasks st) i) with (nth_error mine (i - length old))
      by (rewrite Ht; symmetry; apply nth_error_app2; lia).
    destruct (nth_error mine (i - length old)) as [t|] eqn:Hnth;
      [|exists mine; repeat split; auto].
    destruct (stage t) eqn:Hstage;
      try (exists mine; repeat split; auto; fail).
    assert (Hrun : run t = r).
    { rewrite Forall_forall in Hr. eapply Hr, nth_error_In; eauto. }
    pose proof (fun p s => filter_length_replace p (set_stage s) _ _ _ Hnth)
      as Hlen.
    destruct outcome as [[response|]|]; simpl;
      eexists; (split; [apply Hrep|]);
      (split; [now rewrite replace_at_length|]);
      (split; [apply Forall_replace_at; auto|]);
      repeat split; simpl;
      try (intros Hall; apply (forallb_replaced _ _ _ _ _ Hnth) in Hall;
           discriminate);
      rewrite ?length_app, ?Hrun, ?Nat.eqb_refl; simpl;
      repeat match goal with
             | |- context [filter ?p (replace_at _ (set_stage ?s) mine)] =>
                 let H := fresh in
                 pose proof (Hlen p s) as H; simpl in H; rewrite Hstage in H;
                 simpl in H; revert H;
                 generalize (length (filter p
                                       (replace_at (i - length old)
                                          (set_stage s) mine)))
             end; intros; lia.
  - apply Nat.leb_le in Hown.
    assert (Hrep : forall s,
               replace_at i (set_stage s) (tasks st)
               = old ++ replace_at (i - length old) (set_stage s) mine).
    { intros s. rewrite Ht. apply replace_at_app_r. lia. }
    unfold after_add.
    replace (nth_error (tasks st) i) with (nth_error mine (i - length old))
      by (rewrite Ht; symmetry; apply nth_error_app2; lia).
    destruct (nth_error mine (i - length old)) as [t|] eqn:Hnth;
      [|exists mine; repeat split; auto].
    destruct (stage t) eqn:Hstage;
      try (exists mine; repeat split; auto; fail).
    assert (Hrun : run t = r).
    { rewrite Forall_forall in Hr. eapply Hr, nth_error_In; eauto. }
    pose proof (fun p s => filter_length_replace p (set_stage s) _ _ _ Hnth)
      as Hlen.
    destruct ok; simpl;
      eexists; (split; [apply Hrep|]);
      (split; [now rewrite replace_at_length|]);
      (split; [apply Forall_replace_at; auto|]);
      repeat split; simpl;
      try (intros Hall; apply (forallb_replaced _ _ _ _ _ Hnth) in Hall;
           discriminate);
      try (intros Hall; rewrite Hrun, Hs, Hc;
           rewrite (all_passed_when_last_ran _ _ _ Hnth) by
             (auto; now rewrite Hstage);
           now rewrite Hn, Nat.eqb_refl);
      rewrite ?length_app; simpl;
      repeat match goal with
             | |- context [filter ?p (replace_at _ (set_stage ?s) mine)] =>
                 let H := fresh in
                 pose proof (Hlen p s) as H; simpl in H; rewrite Hstage in H;
                 simpl in H; revert H;
                 generalize (length (filter p
                                       (replace_at (i - length old)
                                          (set_stage s) mine)))
             end; intros; lia.
Qed.

Lemma settling_exec old r n entries records signals evs st :
  settling old r n entries records signals st ->
  forallb (own (length old)) evs = true ->
  settling old r n entries records signals (exec evs st).
Proof.
  revert st; induction evs as [|ev evs IH]; intros st H Hown; auto.
  simpl in Hown. apply andb_prop in Hown as [Hown1 Hown2].
  rewrite exec_cons. apply IH; auto. now apply settling_step.
Qed.

Lemma settling_click st u input :
  _ollamaInstance st = true ->
  1 <= length (filter TLLM.selected (_llm st)) ->
  settling (tasks st) (activations st)
    (length (filter TLLM.selected (_llm st)))
    (length (_results st)) (length (responses st)) (done_events st)
    (_handleClick u input st).
Proof.
  intros Hinst Hn. unfold _handleClick. rewrite Hinst. simpl.
  eexists. simpl. split; [reflexivity|].
  rewrite length_map, Nat.eqb_refl, !spawned_not_passed by reflexivity.
  repeat split; auto.
  - apply Forall_forall. intros t [l [<- _]]%in_map_iff. reflexivity.
  - destruct (filter TLLM.selected (_llm st)); simpl in *;
      [lia|discriminate].
Qed.

(** X3: a run with at least one model selected, during which only its
    own requests settle (no further click, no settlement of an earlier
    run), all of whose chat requests are answered and all of whose writes
    succeed, ends not busy, in whatever order its requests settle: its
    counter has reached the number of selected models, and [_results],
    the table and the events dispatched have each grown by that number. *)
Theorem successful_run_ends_idle :
  forall st u input evs,
    _ollamaInstance st = true ->
    1 <= length (filter TLLM.selected (_llm st)) ->
    forallb (own (length (tasks st))) evs = true ->
    forallb (fun k => succeeds (length (tasks st) + k) evs)
      (seq 0 (length (filter TLLM.selected (_llm st)))) = true ->
    _running (exec evs (_handleClick u input st)) = false
    /\ counter (exec evs (_handleClick u input st)) (activations st)
       = length (filter TLLM.selected (_llm st))
    /\ length (_results (exec evs (_handleClick u input st)))
       = length (_results st) + length (filter TLLM.selected (_llm st))
    /\ length (responses (exec evs (_handleClick u input st)))
       = length (responses st) + length (filter TLLM.selected (_llm st))
    /\ done_events (exec evs (_handleClick u input st))
       = done_events st + length (filter TLLM.selected (_llm st)).
Proof.
  intros st u input evs Hinst Hn Hown Hall.
  set (sel := filter TLLM.selected (_llm st)) in *.
  destruct (settling_exec _ _ _ _ _ _ evs _
              (settling_click st u input Hinst Hn) Hown)
    as (mine & Ht & Hlen & _ & Hc & _ & Hb & He & Hl & Hd).
  fold sel in Hlen, Hc, Hb, He, Hl, Hd.
  assert (Hran : forallb (fun t => ran (stage t)) mine = true).
  { apply forallb_forall. intros t Hin.
    apply In_nth_error in Hin as [k Hk].
    assert (Hlt : k < length sel).
    { rewrite <- Hlen. apply nth_error_Some. congruence. }
    rewrite forallb_forall in Hall.
    assert (Hs : succeeds (length (tasks st) + k) evs = true)
      by (apply Hall, in_seq; lia).
    assert (Hstart : stage_at (length (tasks st) + k)
                       (_handleClick u input st) = Some AwaitingChat).
    { unfold stage_at, _handleClick. rewrite Hinst. simpl.
      rewrite nth_error_app2 by lia.
      replace (length (tasks st) + k - length (tasks st)) with k by lia.
      rewrite nth_error_map. fold sel.
      destruct (nth_error sel k) eqn:E; [reflexivity|].
      apply nth_error_None in E. lia. }
    pose proof (succeeds_ran _ evs _ Hstart Hs) as Hend.
    unfold stage_at in Hend. rewrite Ht, nth_error_app2 in Hend by lia.
    replace (length (tasks st) + k - length (tasks st)) with k in Hend
      by lia.
    rewrite Hk in Hend. simpl in Hend. now injection Hend as ->. }
  assert (Hfull : forall p : Stage -> bool,
             p RanToEnd = true ->
             length (filter (fun t => p (stage t)) mine) = length sel).
  { intros p Hp. rewrite filter_all; auto.
    intros t Hin. rewrite forallb_forall in Hran. specialize (Hran t Hin).
    destruct (stage t); try discriminate. exact Hp. }
  rewrite (Hfull passed eq_refl) in Hc.
  rewrite (Hfull had_response eq_refl) in He.
  rewrite (Hfull ran eq_refl) in Hl, Hd.
  repeat split; auto.
Qed.

Lemma successful_run_ends_idle_witness :
  _running
    (exec Scenario.both_stored
       (_handleClick "run-1" (Some "Hello"%string) Scenario.ready))
  = false
  /\ done_events
       (exec Scenario.both_stored
          (_handleClick "run-1" (Some "Hello"%string) Scenario.ready))
     = 2.
Proof.
  destruct (successful_run_ends_idle Scenario.ready "run-1"
              (Some "Hello"%string) Scenario.both_stored
              eq_refl (le_S _ _ (le_n _)) eq_refl eq_refl)
    as (Hb & _ & _ & _ & Hd).
  split; [exact Hb | exact Hd].
Defined.

(** ** Where the records of the table come from *)

Lemma names_replace_at idx l :
  map TLLM.name (replace_at idx flip l) = map TLLM.name l.
Proof.
  revert idx; induction l as [|x l IH]; intros [|idx]; simpl; auto.
  now rewrite IH.
Qed.

Lemma sourced_step names subs table st ev :
  sourced names subs table st ->
  sourced names (subs ++ submissions [ev]) table (step st ev).
Proof.
  intros (Hnames & Hwf & Htasks & new & Hresp & Hnew).
  assert (Hmono : forall x, In x subs -> In x (subs ++ submissions [ev])).
  { intros x Hx. apply in_or_app. now left. }
  assert (Htasks' : Forall (fun t => In (TLLM.name (llm t)) names
                                     /\ In (uuid t, queryInput t)
                                          (subs ++ submissions [ev]))
                      (tasks st)).
  { eapply Forall_impl; [|exact Htasks]. simpl. intros t [? ?]. auto. }
  assert (Hnew' : Forall (fun rec =>
                            In (TResponse.model_name rec) names
                            /\ In (TResponse.group_id rec,
                                   TResponse.query rec)
                                 (subs ++ submissions [ev])) new).
  { eapply Forall_impl; [|exact Hnew]. simpl. intros t [? ?]. auto. }
  pose proof (wf_step st ev Hwf) as Hwf'.
  split; [|split; [exact Hwf'|]].
  - destruct ev; simpl; auto; handler_cases; auto.
    now rewrite names_replace_at.
  - destruct ev as [now|idx|u input|i outcome|i ok]; simpl in *.
    + split; eauto.
    + split; eauto.
    + unfold _handleClick. destruct (negb _); [split; eauto|]. simpl.
      split; [|eauto].
      apply Forall_app. split; auto.
      apply Forall_forall. intros t [l [<- Hl]]%in_map_iff. simpl. split.
      * rewrite <- Hnames. apply in_map.
        now apply filter_In in Hl as [Hl _].
      * apply in_or_app. right. now left.
    + rewrite app_nil_r in *. unfold after_chat.
      destruct (nth_error (tasks st) i) as [t|] eqn:Hnth; [|split; eauto].
      destruct (stage t); try (split; eauto; fail).
      destruct outcome as [[response|]|]; simpl;
        (split; [apply Forall_replace_at; auto|eauto]).
    + rewrite app_nil_r in *. unfold after_add.
      destruct (nth_error (tasks st) i) as [t|] eqn:Hnth; [|split; eauto].
      destruct (stage t) eqn:Hstage; try (split; eauto; fail).
      destruct ok; simpl;
        (split; [apply Forall_replace_at; auto|]); eauto.
      exists (new ++ [record]). split; [now rewrite Hresp, app_assoc|].
      apply Forall_app. split; auto. constructor; auto.
      assert (Hkey : key_of_record record = key_of_task t).
      { unfold wf in Hwf. rewrite forallb_forall in Hwf.
        specialize (Hwf t (nth_error_In _ _ Hnth)).
        unfold in_flight_ok in Hwf. rewrite Hstage in Hwf.
        now apply eqb_key_eq. }
      rewrite Forall_forall in Htasks.
      destruct (Htasks t (nth_error_In _ _ Hnth)) as [H1 H2].
      unfold key_of_record, key_of_task in Hkey.
      injection Hkey as -> -> ->. auto.
Qed.

(** X4: the table only grows, and what a session adds to it comes from
    its clicks: every record added names a model that the backend listed
    and carries the run identifier and the query of one of the clicks. *)
Theorem stored_records_come_from_clicks :
  forall table now outcome evs,
    exists new,
      responses (exec evs (initialised table now outcome)) = table ++ new
      /\ Forall
           (fun rec =>
              In (TResponse.model_name rec)
                (map TLLM.name (_llm (initialised table now outcome)))
              /\ In (TResponse.group_id rec, TResponse.query rec)
                   (submissions evs))
           new.
Proof.
  intros table now outcome evs.
  enough (H : sourced
                (map TLLM.name (_llm (initialised table now outcome)))
                (submissions evs) table
                (exec evs (initialised table now outcome)))
    by (destruct H as (_ & _ & _ & H); exact H).
  induction evs as [|ev evs IH] using rev_ind.
  - split; [reflexivity|]. split; [now destruct outcome|].
    split; [destruct outcome; constructor|].
    exists []. split; [|constructor].
    destruct outcome; simpl; now rewrite app_nil_r.
  - rewrite exec_snoc. unfold submissions in *. rewrite flat_map_app.
    now apply sourced_step.
Qed.

(** ** Entries of [_results] and records of the table *)

Lemma tallied_step entries records st ev :
  tallied entries records st -> tallied entries records (step st ev).
Proof.
  intros [He Hr].
  destruct ev as [now|idx|u input|i outcome|i ok]; simpl;
    try (split; assumption).
  - unfold _handleClick. destruct (negb _); [split; assumption|].
    split; simpl; rewrite filter_app, length_app, spawned_not_passed;
      simpl; auto; lia.
  - unfold after_chat.
    destruct (nth_error (tasks st) i) as [t|] eqn:Hnth; [|split; assumption].
    destruct (stage t) eqn:Hstage; try (split; assumption).
    pose proof (fun p s => filter_length_replace p (set_stage s) _ _ _ Hnth)
      as Hlen.
    destruct outcome as [[response|]|]; split; simpl;
      rewrite ?length_app; simpl;
      match goal with
      | |- context [filter ?p (replace_at _ (set_stage ?s) _)] =>
          pose proof (Hlen p s) as H; simpl in H; rewrite Hstage in H;
          simpl in H
      end; lia.
  - unfold after_add.
    destruct (nth_error (tasks st) i) as [t|] eqn:Hnth; [|split; assumption].
    destruct (stage t) eqn:Hstage; try (split; assumption).
    pose proof (fun p s => filter_length_replace p (set_stage s) _ _ _ Hnth)
      as Hlen.
    destruct ok; split; simpl;
      rewrite ?length_app; simpl;
      match goal with
      | |- context [filter ?p (replace_at _ (set_stage ?s) _)] =>
          pose proof (Hlen p s) as H; simpl in H; rewrite Hstage in H;
          simpl in H
      end; lia.
Qed.

(** X5: in every state of a session, [_results] has one entry for each
    callback that got a response, the table has grown by one record for
    each callback that ran to its end, and so the records stored in the
    session are never more than the entries of [_results]: they differ by
    the writes that are pending or failed. *)
Theorem stored_records_have_their_entries :
  forall table now outcome evs,
    length (_results (exec evs (initialised table now outcome)))
    = length
        (filter (fun t => had_response (stage t))
           (tasks (exec evs (initialised table now outcome))))
    /\ length table + length (_results (exec evs (initialised table now outcome)))
       = length (responses (exec evs (initialised table now outcome)))
         + length
             (filter (fun t => had_response (stage t) && negb (ran (stage t)))
                (tasks (exec evs (initialised table now outcome)))).
Proof.
  intros table now outcome evs.
  assert (H : tallied 0 (length table)
                (exec evs (initialised table now outcome))).
  { induction evs as [|ev evs IH] using rev_ind.
    - destruct outcome; split; simpl; lia.
    - rewrite exec_snoc. now apply tallied_step. }
  destruct H as [He Hr]. split; [exact He|].
  rewrite He, Hr.
  generalize (tasks (exec evs (initialised table now outcome))).
  induction l as [|t l IH]; simpl; [lia|].
  destruct (stage t); simpl; lia.
Qed.

(** ** The checkboxes *)

Lemma flip_flip l : flip (flip l) = l.
Proof. destruct l. unfold flip. simpl. now rewrite negb_involutive. Qed.

Lemma ticked_boxes st idxs i l :
  nth_error (_llm st) i = Some l ->
  nth_error (_llm (exec (map Change idxs) st)) i
  = Some (if Nat.odd (count_occ Nat.eq_dec idxs i) then flip l else l).
Proof.
  revert st l; induction idxs as [|idx idxs IH]; intros st l H; auto.
  simpl map. rewrite exec_cons. simpl step.
  assert (Hnth : nth_error (_llm (change idx st)) i
                 = Some (if idx =? i then flip l else l)).
  { simpl. rewrite nth_error_replace_at, H. now destruct (idx =? i). }
  rewrite (IH _ _ Hnth). simpl count_occ.
  destruct (Nat.eq_dec idx i) as [->|Hne].
  - rewrite Nat.eqb_refl, Nat.odd_succ, <- Nat.negb_odd.
    destruct (Nat.odd _); simpl; now rewrite ?flip_flip.
  - apply Nat.eqb_neq in Hne. now rewrite Hne.
Qed.

(** X6: ticking boxes changes the [selected] flag of the models ticked an
    odd number of times and nothing else of [_llm]; after [firstUpdated]
    has listed the models, none is selected, so that the models selected
    for the next click are those ticked an odd number of times. *)
Theorem selection_follows_the_boxes :
  forall st idxs i l,
    nth_error (_llm st) i = Some l ->
    nth_error (_llm (exec (map Change idxs) st)) i
    = Some (if Nat.odd (count_occ Nat.eq_dec idxs i) then flip l else l)
    /\ length (_llm (exec (map Change idxs) st)) = length (_llm st)
    /\ forall table now models m,
         st = initialised table now (ListFulfilled models) ->
         nth_error models i = Some m ->
         l = toTLLM m
         /\ TLLM.selected
              (if Nat.odd (count_occ Nat.eq_dec idxs i) then flip l else l)
            = Nat.odd (count_occ Nat.eq_dec idxs i).
Proof.
  intros st idxs i l H. split; [now apply ticked_boxes|]. split.
  - clear. revert st; induction idxs as [|idx idxs IH]; intros st; auto.
    simpl map. rewrite exec_cons, IH. simpl. apply replace_at_length.
  - intros table now models m -> Hm. simpl in H.
    rewrite nth_error_map, Hm in H. injection H as <-.
    split; [reflexivity|]. now destruct (Nat.odd _).
Qed.

Lemma selection_follows_the_boxes_witness :
  nth_error
    (_llm
       (exec (map Change [1; 0; 1])
          (initialised [] "2025-01-01T10:00:00.000Z"
             (ListFulfilled [Scenario.llama3; Scenario.mistral]))))
    0
  = Some (flip (toTLLM Scenario.llama3)).
Proof.
  exact (proj1 (selection_follows_the_boxes
                  (initialised [] "2025-01-01T10:00:00.000Z"%string
                     (ListFulfilled [Scenario.llama3; Scenario.mistral]))
                  [1; 0; 1] 0 (toTLLM Scenario.llama3) eq_refl)).
Defined.

(** ** Ticking boxes while a run is under way *)

Lemma same_but_llm_change idx a b :
  same_but_llm a b -> same_but_llm (change idx a) b.
Proof. intros H. exact H. Qed.

Lemma same_but_llm_step a b ev :
  same_but_llm a b -> no_click ev = true -> is_change ev = false ->
  same_but_llm (step a ev) (step b ev).
Proof.
  intros (Hres & Hrun & Hsel & Hinst & Hresp & Hclock & Hcount & Hact
          & Htasks & Hdone & Hlist) Hclick Hchange.
  destruct ev as [now|idx|u input|i outcome|i ok]; try discriminate;
    simpl.
  - repeat split; auto.
  - unfold after_chat. rewrite Htasks.
    destruct (nth_error (tasks b) i) as [t|]; [|repeat split; auto].
    destruct (stage t); try (repeat split; auto; fail).
    destruct outcome as [[response|]|]; repeat split; simpl; auto;
      try (intros r; now rewrite Hcount);
      now rewrite ?Hres, ?Hclock, ?Htasks.
  - unfold after_add. rewrite Htasks.
    destruct (nth_error (tasks b) i) as [t|]; [|repeat split; auto].
    destruct (stage t); try (repeat split; auto; fail).
    destruct ok; repeat split; simpl; auto;
      now rewrite ?Hsel, ?Hcount, ?Hrun, ?Hresp, ?Hdone.
Qed.

(** In the modelled state, which holds the immutable properties of the
    model objects where the code holds the objects, the ticks that come
    without a further click change [_llm] only. *)
Lemma same_but_llm_exec :
  forall st evs,
    forallb no_click evs = true ->
    same_but_llm (exec evs st)
      (exec (filter (fun ev => negb (is_change ev)) evs) st).
Proof.
  intros st evs Hevs.
  assert (H : forall a b,
             same_but_llm a b ->
             same_but_llm (exec evs a)
               (exec (filter (fun ev => negb (is_change ev)) evs) b)).
  { induction evs as [|ev evs IH]; intros a b Hab; auto.
    simpl in Hevs. apply andb_prop in Hevs as [Hev Hevs].
    rewrite exec_cons. cbn [filter].
    destruct (is_change ev) eqn:Hc; cbn [negb].
    - destruct ev; try discriminate. apply IH; auto.
    - rewrite exec_cons. apply IH; auto. now apply same_but_llm_step. }
  apply H. repeat split.
Qed.

(** X7: ticking boxes after a click does not change what the runs do: as
    long as no further click comes, the stage of every callback, the
    counters, the table, the busy flag, the events dispatched, the number
    of models the counters are compared with and, in every entry of
    [_results], the response, the model's name, parameters, size and
    family, the query and the time are what they would be without the
    ticks.  (The [selected] flag of the objects is not among these.) *)
Theorem ticks_do_not_change_what_runs_do :
  forall st evs,
    forallb no_click evs = true ->
    responses (exec evs st)
    = responses (exec (filter (fun ev => negb (is_change ev)) evs) st)
    /\ (forall r,
          counter (exec evs st) r
          = counter (exec (filter (fun ev => negb (is_change ev)) evs) st) r)
    /\ map stage (tasks (exec evs st))
       = map stage
           (tasks (exec (filter (fun ev => negb (is_change ev)) evs) st))
    /\ _running (exec evs st)
       = _running (exec (filter (fun ev => negb (is_change ev)) evs) st)
    /\ done_events (exec evs st)
       = done_events (exec (filter (fun ev => negb (is_change ev)) evs) st)
    /\ length (_selectedLLM (exec evs st))
       = length
           (_selectedLLM
              (exec (filter (fun ev => negb (is_change ev)) evs) st))
    /\ map (fun e => (MemResult.response e, MemResult.name e,
                      MemResult.parameters e, MemResult.size e,
                      MemResult.family e, MemResult.query e,
                      MemResult.started e))
         (_results (exec evs st))
       = map (fun e => (MemResult.response e, MemResult.name e,
                        MemResult.parameters e, MemResult.size e,
                        MemResult.family e, MemResult.query e,
                        MemResult.started e))
           (_results
              (exec (filter (fun ev => negb (is_change ev)) evs) st)).
Proof.
  intros st evs Hevs.
  destruct (same_but_llm_exec st evs Hevs)
    as (Hres & Hrun & Hsel & _ & Hresp & _ & Hcount & _ & Htasks & Hdone
        & _).
  rewrite Hres, Hrun, Hsel, Hresp, Htasks, Hdone. repeat split; auto.
Qed.

Lemma ticks_do_not_change_what_runs_do_witness :
  responses
    (exec [ChatSettles 0 (ChatFulfilled (Some (Scenario.answer "Hi")));
           Change 0; AddSettles 0 true]
       (step Scenario.ready Scenario.submit))
  = responses
      (exec [ChatSettles 0 (ChatFulfilled (Some (Scenario.answer "Hi")));
             AddSettles 0 true]
         (step Scenario.ready Scenario.submit)).
Proof.
  destruct (ticks_do_not_change_what_runs_do
              (step Scenario.ready Scenario.submit)
              [ChatSettles 0 (ChatFulfilled (Some (Scenario.answer "Hi")));
               Change 0; AddSettles 0 true] eq_refl)
    as (H & _).
  exact H.
Defined.

(** ** Before [firstUpdated] *)

(** X8: before [firstUpdated] has run, nothing but the clock moves:
    clicks return at their first line, so that no request is issued, and
    nothing is pushed, stored or dispatched. *)
Theorem nothing_happens_before_firstUpdated :
  forall table now evs,
    exec evs (constructed table now)
    = constructed table (last_tick now evs).
Proof.
  intros table now evs. revert now.
  induction evs as [|ev evs IH]; intros now; auto.
  rewrite exec_cons.
  replace (step (constructed table now) ev)
    with (constructed table
            (match ev with Tick now' => now' | _ => now end)).
  - rewrite IH. reflexivity.
  - destruct ev as [now'|[|idx]|u input|[|i] outcome|[|i] ok]; reflexivity.
Qed.

(** ** After a failed [firstUpdated] *)

Lemma failed_step st ev :
  _ollamaInstance st = true -> _llm st = [] -> tasks st = [] ->
  _ollamaInstance (step st ev) = true
  /\ _llm (step st ev) = []
  /\ tasks (step st ev) = []
  /\ responses (step st ev) = responses st
  /\ _results (step st ev) = _results st
  /\ done_events (step st ev) = done_events st
  /\ _running (step st ev) = (_running st || negb (no_click ev)).
Proof.
  intros Hinst Hllm Htasks.
  destruct ev as [now|[|idx]|u input|[|i] outcome|[|i] ok]; simpl;
    unfold _handleClick, after_chat, after_add;
    rewrite ?Hinst, ?Hllm, ?Htasks; simpl;
    rewrite ?orb_false_r, ?orb_true_r; auto 10.
Qed.

(** X9: when [list()] failed, no model is ever listed, so that no click
    can issue a request: nothing is ever pushed, stored or dispatched, and
    from the first click on the component is busy for good. *)
Theorem nothing_runs_after_failed_firstUpdated :
  forall table now evs,
    _llm (exec evs (initialised table now ListRejected)) = []
    /\ tasks (exec evs (initialised table now ListRejected)) = []
    /\ responses (exec evs (initialised table now ListRejected)) = table
    /\ _results (exec evs (initialised table now ListRejected)) = []
    /\ done_events (exec evs (initialised table now ListRejected)) = 0
    /\ _running (exec evs (initialised table now ListRejected))
       = negb (forallb no_click evs).
Proof.
  intros table now evs.
  assert (H : forall st,
             _ollamaInstance st = true -> _llm st = [] -> tasks st = [] ->
             _llm (exec evs st) = [] /\ tasks (exec evs st) = []
             /\ responses (exec evs st) = responses st
             /\ _results (exec evs st) = _results st
             /\ done_events (exec evs st) = done_events st
             /\ _running (exec evs st)
                = (_running st || negb (forallb no_click evs))).
  { induction evs as [|ev evs IH]; intros st Hinst Hllm Htasks.
    - simpl. now rewrite orb_false_r.
    - rewrite exec_cons.
      destruct (failed_step st ev Hinst Hllm Htasks)
        as (Hi & Hl & Ht & Hr & He & Hd & Hb).
      destruct (IH _ Hi Hl Ht) as (-> & -> & -> & -> & -> & ->).
      rewrite Hr, He, Hd, Hb. simpl.
      repeat split; auto.
      rewrite negb_andb, orb_assoc. reflexivity. }
  apply (H (initialised table now ListRejected)); reflexivity.
Qed.

(** * More on the exporter *)

Import Viewer.
Import Sheet.

Local Open Scope string_scope.

Section Exporter.

Variable humanFileSize : float -> string.

(** X10: the export alerts, and offers no file, exactly when the list is
    missing or empty; otherwise it offers "responses.tsv", whose content
    starts with the byte order mark and has one line more than there are
    records. *)
Theorem export_alerts_when_there_is_nothing :
  forall _responses,
    (_exportToExcel humanFileSize _responses = Alert "No data to export."
     <-> _responses = None \/ _responses = Some []%list)
    /\ (forall message,
          _exportToExcel humanFileSize _responses = Alert message ->
          message = "No data to export.")
    /\ forall r rs,
         exists content,
           _exportToExcel humanFileSize (Some (r :: rs)%list)
           = Download "responses.tsv"
               "text/tab-separated-values;charset=utf-8;" (bom ++ content)
           /\ length (split_on LF content) = S (length (r :: rs)%list).
Proof.
  intros _responses. split; [|split].
  - destruct _responses as [[|r rs]|]; simpl; split; auto;
      try discriminate; intros [H|H]; discriminate.
  - intros message. destruct _responses as [[|r rs]|]; simpl;
      intros H; try discriminate; now injection H as <-.
  - intros r rs. exists (tsvContent humanFileSize (r :: rs)).
    split; [reflexivity|].
    pose proof (table_of_tsvContent humanFileSize (r :: rs)) as H.
    apply (f_equal (@length _)) in H. unfold table_of in H.
    rewrite length_map in H. rewrite H. simpl. now rewrite length_map.
Qed.

Lemma replace_cr_lf_runs_clean s :
  clean s = true -> replace_cr_lf_runs s = s.
Proof.
  induction s as [|c s IH]; auto.
  intros H. simpl in H. apply andb_prop in H as [Hc Hs].
  assert (Hn : is_cr_lf c = false).
  { apply negb_true_iff in Hc. unfold is_tab_cr_lf in Hc. unfold is_cr_lf.
    apply orb_false_elim in Hc as [[_ ->]%orb_false_elim ->]. reflexivity. }
  simpl. now rewrite Hn, IH.
Qed.

(** X11: a record whose texts hold no tab, carriage return or line feed
    is written with these texts as they are. *)
Theorem plain_texts_are_exported_unchanged :
  forall r,
    plain humanFileSize r = true ->
    row humanFileSize r
    = [ TResponse.model_family r;
        TResponse.model_name r;
        TResponse.parameters r;
        humanFileSize (TResponse.size r);
        TResponse.query r;
        TResponse.message r;
        milliseconds (TResponse.total_duration r);
        milliseconds (TResponse.load_duration r);
        JS.Number_toString (TResponse.prompt_eval_count r);
        milliseconds (TResponse.prompt_eval_duration r);
        per_second (TResponse.prompt_eval_count r)
          (TResponse.prompt_eval_duration r);
        JS.Number_toString (TResponse.eval_count r);
        milliseconds (TResponse.eval_duration r);
        per_second (TResponse.eval_count r) (TResponse.eval_duration r);
        TResponse.created_at r;
        TResponse.group_id r ]%list.
Proof.
  intros r H. unfold plain in H.
  repeat (apply andb_prop in H as [H ?]).
  rewrite row_columns. unfold columns.
  rewrite (replace_cr_lf_runs_clean (TResponse.message r)) by assumption.
  now rewrite !replace_clean by assumption.
Qed.

(** X12: escaping a text keeps its length and, done twice, is the same as
    done once; the cell of the response is never longer than the
    response. *)
Theorem escaping_is_idempotent :
  forall s v r,
    String.length (escapeTSVValue (Str s)) = String.length s
    /\ escapeTSVValue (Str (escapeTSVValue v)) = escapeTSVValue v
    /\ String.length (nth 5 (row humanFileSize r) "")
       <= String.length (TResponse.message r).
Proof.
  intros s v r.
  assert (Hlen : forall s, String.length (replace_tab_cr_lf s)
                           = String.length s).
  { clear. induction s as [|c s IH]; simpl; auto. }
  split; [apply Hlen|]. split.
  - simpl. apply replace_clean, escape_clean.
  - cbn [row nth escapeTSVValue]. rewrite Hlen.
    generalize (TResponse.message r). clear.
    assert (H : forall s,
               String.length (replace_cr_lf_runs s) <= String.length s
               /\ forall c, String.length (replace_cr_lf_runs (String c s))
                            <= S (String.length s)).
    { induction s as [|d s [IH1 IH2]].
      - split; [auto|]. intros c. simpl. destruct (is_cr_lf c); auto.
      - split; [apply IH2|]. intros c.
        change (replace_cr_lf_runs (String c (String d s)))
          with (if is_cr_lf c
                then if is_cr_lf d then replace_cr_lf_runs (String d s)
                     else String " " (replace_cr_lf_runs (String d s))
                else String c (replace_cr_lf_runs (String d s))).
        specialize (IH2 d).
        destruct (is_cr_lf c), (is_cr_lf d); simpl in *; lia. }
    intros s. apply H.
Qed.

End Exporter.

Lemma plain_texts_are_exported_unchanged_witness :
  nth 4 (row Scenario.size_label (Scenario.stored "Hi")) "" = "Hello"
  /\ nth 5 (row Scenario.size_label (Scenario.stored "Hi")) "" = "Hi".
Proof.
  pose proof (plain_texts_are_exported_unchanged Scenario.size_label
                (Scenario.stored "Hi") eq_refl) as H.
  split; [exact (f_equal (fun l => nth 4 l "") H)
         | exact (f_equal (fun l => nth 5 l "") H)].
Defined.



Local Close Scope string_scope.

(** * A run with a failed request, among other runs *)

Lemma unanswered_stays i evs st s :
  stage_at i st = Some s ->
  passed s = false ->
  existsb (fulfils i) evs = false ->
  exists s', stage_at i (exec evs st) = Some s' /\ passed s' = false.
Proof.
  revert st s; induction evs as [|ev evs IH]; intros st s H Hs Hev; eauto.
  simpl in Hev. apply orb_false_elim in Hev as [Hev Hevs].
  rewrite exec_cons.
  destruct ev as [now|idx|u input|i' outcome|i' ok]; simpl in *.
  - eapply IH; eauto.
  - eapply IH; eauto.
  - eapply IH; eauto. now apply stage_at_click.
  - destruct (Nat.eqb_spec i' i) as [->|Hne].
    + destruct outcome as [response|]; [discriminate|].
      destruct s; try discriminate.
      * apply (IH _ ChatThrew); auto.
        unfold stage_at in H.
        destruct (nth_error (tasks st) i) as [t|] eqn:Hnth; [|discriminate].
        simpl in H. injection H as H.
        unfold after_chat. rewrite Hnth, H.
        erewrite stage_at_settle by reflexivity.
        rewrite Nat.eqb_refl. unfold stage_at. now rewrite Hnth.
      * apply (IH _ ChatThrew); auto.
        apply stage_at_after_chat; auto. right. discriminate.
    + eapply IH; eauto. apply stage_at_after_chat; auto.
  - eapply IH; eauto. apply stage_at_after_add; auto.
    right. intros rec ->. discriminate.
Qed.

Lemma map_run_replace_at s i ts :
  map run (replace_at i (set_stage s) ts) = map run ts.
Proof.
  revert i; induction ts as [|t ts IH]; intros [|i]; simpl; auto.
  now rewrite IH.
Qed.

Lemma runs_step st ev :
  exists later,
    map run (tasks (step st ev)) = map run (tasks st) ++ later
    /\ Forall (fun r => activations st <= r) later
    /\ activations st <= activations (step st ev).
Proof.
  destruct ev as [now|idx|u input|i outcome|i ok]; simpl;
    try solve [exists []; rewrite app_nil_r; auto].
  - unfold _handleClick. destruct (negb _).
    + exists []. rewrite app_nil_r. auto.
    + simpl. rewrite map_app. eexists. split; [reflexivity|]. split; auto.
      apply Forall_forall.
      intros r [t [<- [l [<- _]]%in_map_iff]]%in_map_iff. simpl. lia.
  - exists []. rewrite app_nil_r. unfold after_chat.
    destruct (nth_error (tasks st) i) as [t|]; auto.
    destruct (stage t); auto.
    destruct outcome as [[response|]|]; simpl;
      rewrite map_run_replace_at; auto.
  - exists []. rewrite app_nil_r. unfold after_add.
    destruct (nth_error (tasks st) i) as [t|]; auto.
    destruct (stage t); auto.
    destruct ok; simpl; rewrite map_run_replace_at; auto.
Qed.

Lemma runs_exec evs st :
  exists later,
    map run (tasks (exec evs st)) = map run (tasks st) ++ later
    /\ Forall (fun r => activations st <= r) later.
Proof.
  assert (H : exists later,
             map run (tasks (exec evs st)) = map run (tasks st) ++ later
             /\ Forall (fun r => activations st <= r) later
             /\ activations st <= activations (exec evs st)).
  { revert st; induction evs as [|ev evs IH]; intros st.
    - exists []. rewrite app_nil_r. auto.
    - rewrite exec_cons.
      destruct (IH (step st ev)) as (later2 & E2 & F2 & A2).
      destruct (runs_step st ev) as (later1 & E1 & F1 & A1).
      exists (later1 ++ later2). rewrite E2, E1, app_assoc.
      repeat split; [|lia].
      apply Forall_app. split; auto.
      eapply Forall_impl; [|exact F2]. simpl. lia. }
  destruct H as (later & E & F & _). eauto.
Qed.

Lemma filter_by_run r (ts : list Task) :
  length (filter (of_run r) ts)
  = length (filter (fun x => x =? r) (map run ts)).
Proof.
  induction ts as [|t ts IH]; simpl; auto.
  unfold of_run at 1. destruct (run t =? r); simpl; auto.
Qed.

Lemma filter_strictly_fewer {A} (q p : A -> bool) l i x :
  nth_error l i = Some x -> q x = true -> p x = false ->
  length (filter (fun x => q x && p x) l) < length (filter q l).
Proof.
  intros H Hq Hp.
  destruct (nth_error_split l i H) as (l1 & l2 & -> & _).
  rewrite !filter_app, !length_app. simpl. rewrite Hq, Hp. simpl.
  assert (Hle : forall l : list A,
             length (filter (fun x => q x && p x) l)
             <= length (filter q l)).
  { clear. induction l as [|y l IH]; simpl; auto.
    destruct (q y), (p y); simpl; lia. }
  pose proof (Hle l1). pose proof (Hle l2). lia.
Qed.

Lemma callbacks_of_the_run st u input evs :
  counted st ->
  _ollamaInstance st = true ->
  length (filter (of_run (activations st))
            (tasks (exec evs (_handleClick u input st))))
  = length (filter TLLM.selected (_llm st)).
Proof.
  intros [Hold _] Hinst.
  destruct (runs_exec evs (_handleClick u input st)) as (later & E & F).
  rewrite filter_by_run, E.
  unfold _handleClick in *. rewrite Hinst in *. simpl in *.
  rewrite !map_app, !filter_app, !length_app, map_map. simpl.
  rewrite (filter_none _ (map run (tasks st))), (filter_none _ later).
  - simpl. rewrite Nat.add_0_r, filter_all, length_map; auto.
    intros x [l [<- _]]%in_map_iff. apply Nat.eqb_refl.
  - intros x Hx. rewrite Forall_forall in F. specialize (F x Hx).
    apply Nat.eqb_neq. lia.
  - intros x [t [<- Ht]]%in_map_iff. rewrite Forall_forall in Hold.
    specialize (Hold t Ht). apply Nat.eqb_neq. lia.
Qed.

(** In a run one of whose chat requests is never answered, the callback
    of that request never gets past its [await] and the counter of the run
    stays below the number of selected models; while only requests of
    that run settle, the component stays busy. *)
Lemma unfinished_run :
  forall st u input evs j,
    counted st ->
    _ollamaInstance st = true ->
    j < length (filter TLLM.selected (_llm st)) ->
    existsb (fulfils (length (tasks st) + j)) evs = false ->
    (forall st' i,
        (forall r, counter (step st' (ChatSettles i ChatRejected)) r
                   = counter st' r)
        /\ _results (step st' (ChatSettles i ChatRejected)) = _results st'
        /\ responses (step st' (ChatSettles i ChatRejected)) = responses st'
        /\ _running (step st' (ChatSettles i ChatRejected)) = _running st')
    /\ (exists s,
          stage_at (length (tasks st) + j)
            (exec evs (_handleClick u input st)) = Some s
          /\ passed s = false)
    /\ counter (exec evs (_handleClick u input st)) (activations st)
       < length (filter TLLM.selected (_llm st))
    /\ (forallb (own (length (tasks st))) evs = true ->
        length (_selectedLLM (exec evs (_handleClick u input st)))
        = length (filter TLLM.selected (_llm st))
        /\ length (responses (exec evs (_handleClick u input st)))
           < length (responses st)
             + length (filter TLLM.selected (_llm st))
        /\ _running (exec evs (_handleClick u input st)) = true).
Proof.
  intros st u input evs j Hcounted Hinst Hj Hful.
  set (n := length (filter TLLM.selected (_llm st))) in *.
  set (final := exec evs (_handleClick u input st)).
  assert (Htasks : tasks (_handleClick u input st)
                   = tasks st
                     ++ map (spawn (activations st) u
                               match input with
                               | Some v => v
                               | None => ""%string
                               end)
                          (filter TLLM.selected (_llm st))).
  { unfold _handleClick. now rewrite Hinst. }
  assert (Hstart : stage_at (length (tasks st) + j) (_handleClick u input st)
                   = Some AwaitingChat).
  { unfold stage_at. rewrite Htasks, nth_error_app2 by lia.
    replace (length (tasks st) + j - length (tasks st)) with j by lia.
    rewrite nth_error_map.
    destruct (nth_error _ j) eqn:E; [reflexivity|].
    apply nth_error_None in E. unfold n in Hj. lia. }
  destruct (unanswered_stays _ evs _ _ Hstart eq_refl Hful)
    as (s & Hs & Hpassed).
  fold final in Hs.
  split; [|split; [|split]].
  - intros st' i. simpl. unfold after_chat.
    destruct (nth_error (tasks st') i) as [t|]; auto.
    destruct (stage t); auto.
  - exists s. auto.
  - destruct (counted_exec evs _
                (counted_step st (Click u input) Hcounted)) as [_ Hcount].
    change (step st (Click u input)) with (_handleClick u input st) in Hcount.
    fold final in Hcount. rewrite Hcount.
    pose proof (callbacks_of_the_run st u input evs Hcounted Hinst) as Hall.
    fold final n in Hall. rewrite <- Hall.
    unfold stage_at in Hs.
    destruct (nth_error (tasks final) (length (tasks st) + j)) as [t|]
      eqn:Hnth; [|discriminate].
    simpl in Hs. injection Hs as Hs.
    apply (filter_strictly_fewer (of_run (activations st))
             (fun t => passed (stage t)) _ _ t Hnth);
      [|now rewrite Hs].
    destruct (runs_exec evs (_handleClick u input st)) as (later & E & _).
    fold final in E.
    apply (map_nth_error run) in Hnth. rewrite E, Htasks in Hnth.
    rewrite map_app, <- app_assoc, nth_error_app2 in Hnth
      by (rewrite length_map; lia).
    rewrite length_map in Hnth.
    replace (length (tasks st) + j - length (tasks st)) with j in Hnth
      by lia.
    rewrite nth_error_app1, map_map, nth_error_map in Hnth
      by (rewrite !length_map; exact Hj).
    destruct (nth_error (filter TLLM.selected (_llm st)) j);
      [|discriminate].
    simpl in Hnth. injection Hnth as Hrun.
    unfold of_run. rewrite <- Hrun. apply Nat.eqb_refl.
  - intros Hown.
    destruct (stuck_exec _ _ _ _ _ evs _ (stuck_click st u input j Hinst Hj)
                Hown Hful)
      as (mine & _ & Hn & _ & Hc & Hnj & Hsel & Hb & Hl).
    fold final in Hc, Hsel, Hb, Hl. fold n in Hn, Hsel.
    destruct (nth_error mine j) as [tj|] eqn:Hnth; [|discriminate].
    injection Hnj as Hp.
    pose proof (filter_short (fun t => passed (stage t)) _ _ _ Hnth Hp)
      as Hlt.
    assert (Hle : length (filter (fun t => ran (stage t)) mine)
                  <= length (filter (fun t => passed (stage t)) mine)).
    { clear. induction mine as [|t mine IH]; simpl; auto.
      destruct (stage t); simpl; lia. }
    repeat split; auto; lia.
Qed.

(** C3, as stated, fails, in two ways.  In the first the request of the
    second model is rejected and that of the first one answered; the box
    of the second model is unticked and a second click comes; when the
    write of the first answer then settles, line 143 compares the counter
    of the first run, 1, with the length of the new selection, 1, and the
    component leaves the busy state, although the first run has a failed
    request.  In the second both requests of a first run are answered and
    a second click comes before their writes settle; one request of the
    second run is rejected; when a write of the first run settles, line
    143 compares the counter of the first run, 2, with the length of the
    selection of the second run, 2, and the component leaves the busy
    state, although the second run has a failed request. *)
Lemma other_runs_end_the_busy_state :
  (stage_at 1 (exec Scenario.overtaken (step Scenario.ready Scenario.submit))
   = Some ChatThrew
   /\ length (_selectedLLM (step Scenario.ready Scenario.submit)) = 2
   /\ _running (step Scenario.ready Scenario.submit) = true
   /\ _running
        (exec Scenario.overtaken (step Scenario.ready Scenario.submit))
      = false)
  /\ (stage_at 3
        (exec Scenario.left_behind
           (step (exec Scenario.answered_twice Scenario.ready)
              Scenario.resubmit))
      = Some ChatThrew
      /\ length
           (_selectedLLM
              (step (exec Scenario.answered_twice Scenario.ready)
                 Scenario.resubmit)) = 2
      /\ _running
           (step (exec Scenario.answered_twice Scenario.ready)
              Scenario.resubmit) = true
      /\ _running
           (exec Scenario.left_behind
              (step (exec Scenario.answered_twice Scenario.ready)
                 Scenario.resubmit))
         = false).
Proof. vm_compute. repeat split. Qed.

(** C3, amended: in every state of a session, for every run of which at
    least one chat request fails (it throws, or is never answered): a
    rejected chat request changes neither the counters nor [_results] nor
    the table; the callback of the failed request never gets past its
    [await]; the counter of the run never reaches the number of selected
    models, whatever else happens, other runs included; and as long as
    only requests of that run settle (no further click, no settlement of
    a request of an earlier run), fewer records than selected models are
    stored and the component does not leave the busy state. *)
Theorem failed_request_leaves_its_run_unfinished :
  forall table now outcome pre u input evs j,
    let st := exec pre (initialised table now outcome) in
    j < length (filter TLLM.selected (_llm st)) ->
    existsb (fulfils (length (tasks st) + j)) evs = false ->
    (forall st' i,
        (forall r, counter (step st' (ChatSettles i ChatRejected)) r
                   = counter st' r)
        /\ _results (step st' (ChatSettles i ChatRejected)) = _results st'
        /\ responses (step st' (ChatSettles i ChatRejected)) = responses st'
        /\ _running (step st' (ChatSettles i ChatRejected)) = _running st')
    /\ (exists s,
          stage_at (length (tasks st) + j)
            (exec evs (_handleClick u input st)) = Some s
          /\ passed s = false)
    /\ counter (exec evs (_handleClick u input st)) (activations st)
       < length (filter TLLM.selected (_llm st))
    /\ (forallb (own (length (tasks st))) evs = true ->
        length (_selectedLLM (exec evs (_handleClick u input st)))
        = length (filter TLLM.selected (_llm st))
        /\ length (responses (exec evs (_handleClick u input st)))
           < length (responses st)
             + length (filter TLLM.selected (_llm st))
        /\ _running (exec evs (_handleClick u input st)) = true).
Proof.
  intros table now outcome pre u input evs j st Hj Hful.
  apply unfinished_run; auto.
  - apply counted_exec, counted_initialised.
  - apply instance_initialised.
Qed.

Lemma failed_request_leaves_its_run_unfinished_witness :
  counter (exec Scenario.overtaken (step Scenario.ready Scenario.submit)) 0 < 2
  /\ _running
       (exec Scenario.one_rejected (step Scenario.ready Scenario.submit))
     = true.
Proof.
  destruct (failed_request_leaves_its_run_unfinished
              [] "2025-01-01T10:00:00.000Z"%string
              (ListFulfilled [Scenario.llama3; Scenario.mistral])
              [Change 0; Change 1]
              "run-1"%string (Some "Hello"%string) Scenario.overtaken 1
              (le_n _) eq_refl)
    as (_ & _ & Hc & _).
  destruct (failed_request_leaves_its_run_unfinished
              [] "2025-01-01T10:00:00.000Z"%string
              (ListFulfilled [Scenario.llama3; Scenario.mistral])
              [Change 0; Change 1]
              "run-1"%string (Some "Hello"%string) Scenario.one_rejected 0
              (le_S _ _ (le_n _)) eq_refl)
    as (_ & _ & _ & Hown).
  destruct (Hown eq_refl) as (_ & _ & Hb).
  split; [exact Hc | exact Hb].
Defined.
